(** * Attendance-sheet extractor: identifier detection, name location, name parsing

    A shallow embedding of [backend/extractor.py] and
    [backend/config_schema.py], of the CSV writer of [backend/writer.py] and
    of the processing loop and the regrouping of [backend/main.py].

    - A Python [str] is a list of Unicode code points ([N]); [len], slicing,
      [strip], [in] and [join] act on code points.
    - Pixel coordinates are integers ([Z]), as in the OCR engine's word
      schema; confidence scores are finite floats, read as the rationals they
      denote ([Q]), so that [>=] and [==] on them are exact.
    - The three float expressions of the source, [(a + b) / 2],
      [height * 0.8] and [alpha_count / total_len], are evaluated over [Q].
      On integer operands within the float mantissa the comparisons they
      feed have the same outcome in binary64.
    - An exception ([IndexError] on a short box, [re.error] on an invalid
      pattern) is [None]. *)

From Stdlib Require Import ZArith NArith QArith Qabs Permutation Sorted Lia.
From stdpp Require Import base option list gmap sets.
From Stdlib Require String Ascii.
Import String.StringSyntax.

Local Open Scope N_scope.

(** ** Python strings *)

Module PyStr.

Definition char := N.
Definition pystr := list N.

(** [str.isspace] on one code point: the whitespace table of CPython
    ([_PyUnicode_IsWhitespace]); also the class [\s] of [re] on [str]. *)
Definition is_space (c : char) : bool :=
  ((0x09 <=? c) && (c <=? 0x0D)) || ((0x1C <=? c) && (c <=? 0x20))
  || (c =? 0x85) || (c =? 0xA0) || (c =? 0x1680)
  || ((0x2000 <=? c) && (c <=? 0x200A))
  || (c =? 0x2028) || (c =? 0x2029) || (c =? 0x202F) || (c =? 0x205F)
  || (c =? 0x3000).

(** [c.isalpha() and c.isascii()]: the ASCII letters. *)
Definition is_ascii_alpha (c : char) : bool :=
  ((0x41 <=? c) && (c <=? 0x5A)) || ((0x61 <=? c) && (c <=? 0x7A)).

Definition LPAREN : char := 0x28.
Definition RPAREN : char := 0x29.
Definition SPACE : char := 0x20.
Definition IDEOGRAPHIC_SPACE : char := 0x3000.

Fixpoint drop_while (f : char -> bool) (s : pystr) : pystr :=
  match s with
  | [] => []
  | c :: s' => if f c then drop_while f s' else s
  end.

Fixpoint take_while (f : char -> bool) (s : pystr) : pystr :=
  match s with
  | [] => []
  | c :: s' => if f c then c :: take_while f s' else []
  end.

Definition lstrip (s : pystr) : pystr := drop_while is_space s.
Definition rstrip (s : pystr) : pystr := rev (drop_while is_space (rev s)).
(** [s.strip()] *)
Definition strip (s : pystr) : pystr := rstrip (lstrip s).

(** Truthiness of a string: [if s:] *)
Definition truthy (s : pystr) : bool :=
  match s with [] => false | _ => true end.

(** [s.endswith("(")] *)
Definition endswith_lparen (s : pystr) : bool :=
  match last s with
  | Some c => c =? LPAREN
  | None => false
  end.

(** [s[:-1]] *)
Definition drop_last (s : pystr) : pystr := removelast s.

(** [s.startswith(p)], returning what follows [p]. *)
Fixpoint strip_prefix (p s : pystr) : option pystr :=
  match p, s with
  | [], _ => Some s
  | a :: p', b :: s' => if a =? b then strip_prefix p' s' else None
  | _ :: _, [] => None
  end.

(** [p in s] *)
Fixpoint contains (p s : pystr) : bool :=
  match strip_prefix p s with
  | Some _ => true
  | None => match s with
            | [] => false
            | _ :: s' => contains p s'
            end
  end.

(** [sep.join(parts)] *)
Fixpoint join (sep : pystr) (parts : list pystr) : pystr :=
  match parts with
  | [] => []
  | [p] => p
  | p :: ps => p ++ sep ++ join sep ps
  end.

(** [re.sub(r"[()]", "", s)] *)
Definition remove_parens (s : pystr) : pystr :=
  List.filter (fun c => negb ((c =? LPAREN) || (c =? RPAREN))) s.

(** [re.split(r"\s+|　", s)]: the pieces between successive matches, scanned
    left to right.  At a whitespace character the first alternative matches
    and, being greedy, runs to the end of the whitespace run ([in_run]); at
    an ideographic space the second alternative matches one character. *)
Fixpoint re_split_ws (in_run : bool) (cur : pystr) (s : pystr) : list pystr :=
  match s with
  | [] => [cur]
  | c :: s' =>
      if is_space c then
        if in_run then re_split_ws true cur s'
        else cur :: re_split_ws true [] s'
      else if c =? IDEOGRAPHIC_SPACE then cur :: re_split_ws false [] s'
      else re_split_ws false (cur ++ [c]) s'
  end.

Definition split_ws (s : pystr) : list pystr := re_split_ws false [] s.

End PyStr.
Export PyStr.

(** ** Rational comparisons standing for the float ones *)

Definition Qgeb (a b : Q) : bool := Qle_bool b a.
Definition Qltb (a b : Q) : bool := negb (Qle_bool b a).
Definition Qgtb (a b : Q) : bool := Qltb b a.

(** ** What the Python runtime supplies

    [is_decimal] is the Unicode decimal-digit table behind the class [\d]
    of [re] on [str] (it grows with the Unicode version); [re_compile] and
    [re_search] are [re.compile] and the truthiness of [Pattern.search] for
    the user-supplied patterns of the configuration. *)
Class PyRuntime := {
  is_decimal : char -> bool;
  Pattern : Type;
  re_compile : pystr -> option Pattern;
  re_search : Pattern -> pystr -> bool;
}.

(** ** Data model *)

(** [config_schema.AttendCheckConfig] *)
Record AttendCheckConfig := {
  student_id_pattern : pystr;
  student_id_prefix : pystr;
  name_exclusion_pattern : option pystr;
  confidence_threshold : Q;
}.

(** The defaults of the schema.  The exclusion pattern is a bracketed
    character class of punctuation marks, spelled here by code point. *)
Definition default_name_exclusion_pattern : pystr :=
  [0x5B; 0x21; 0x40; 0x23; 0x24; 0x25; 0x5E; 0x26; 0x2A; 0x28; 0x29; 0x2C;
   0x2E; 0x3F; 0x5C; 0x22; 0x3A; 0x7B; 0x7D; 0x7C; 0x3C; 0x3E; 0x5D].

Definition default_config : AttendCheckConfig :=
  {| student_id_pattern := [];
     student_id_prefix := [];
     name_exclusion_pattern := Some default_name_exclusion_pattern;
     confidence_threshold := (5 # 10)%Q |}.

(** One OCR word: the fields of the engine's word schema.  [points] is a
    list of [x, y] pairs. *)
Record WordPrediction := {
  points : list (Z * Z);
  content : pystr;
  direction : pystr;
  rec_score : Q;
  det_score : Q;
}.

(** [StudentInfo] *)
Record StudentInfo := {
  student_id_full : pystr;
  student_id_num : pystr;
  surname : pystr;
  name : pystr;
  full_name : pystr;
  confidence : Q;
  file_name : option pystr;
}.

(** A successful [id_search_pattern.search]: [match.start()] and
    [match.group(1)]. *)
Record Match := {
  m_start : nat;
  m_group1 : pystr;
}.

(** [word == id_word]: field-wise equality of two schema objects. *)
Definition word_eqb (a b : WordPrediction) : bool :=
  bool_decide (points a = points b)
  && bool_decide (content a = content b)
  && bool_decide (direction a = direction b)
  && Qeq_bool (rec_score a) (rec_score b)
  && Qeq_bool (det_score a) (det_score b).

Section Extractor.
Context `{RT : PyRuntime}.

(** The state of an [Extractor] after [__init__]. *)
Record Extractor := {
  config : AttendCheckConfig;
  id_pattern : Pattern;
  name_exclusion : option Pattern;
}.

(** [Extractor.__init__] *)
Definition Extractor_init (cfg : AttendCheckConfig) : option Extractor :=
  idp ← re_compile (student_id_pattern cfg);
  excl ← match name_exclusion_pattern cfg with
          | Some p => if truthy p then Some <$> re_compile p else Some None
          | None => Some None
          end;
  Some {| config := cfg; id_pattern := idp; name_exclusion := excl |}.

(** *** Identifier search: [re.compile(rf"({prefix}\d+)").search]

    The prefix is escaped, so the pattern is the literal prefix followed by
    a greedy run of one or more decimal digits. *)
Definition id_match_here (prefix s : pystr) : option pystr :=
  rest ← strip_prefix prefix s;
  match take_while is_decimal rest with
  | [] => None
  | digits => Some (prefix ++ digits)
  end.

Fixpoint id_search_from (prefix : pystr) (pos : nat) (s : pystr) : option Match :=
  match id_match_here prefix s with
  | Some g => Some {| m_start := pos; m_group1 := g |}
  | None =>
      match s with
      | [] => None
      | _ :: s' => id_search_from prefix (S pos) s'
      end
  end.

Definition id_search (prefix s : pystr) : option Match :=
  id_search_from prefix 0 s.

(** [re.sub(r"\D", "", s)] *)
Definition digits_only (s : pystr) : pystr := List.filter is_decimal s.

(** *** [_parse_name] *)
Definition alpha_count (clean : pystr) : nat :=
  length (List.filter is_ascii_alpha clean).

Definition is_alpha (clean : pystr) : bool :=
  let total_len := length clean in
  if (0 <? total_len)%nat
  then Qgtb (inject_Z (Z.of_nat (alpha_count clean)) / inject_Z (Z.of_nat total_len)) (5 # 10)
  else false.

Definition parse_name (raw_name : pystr) : pystr * pystr * pystr :=
  let clean := strip raw_name in
  let clean := remove_parens clean in
  if negb (truthy clean) then ([], [], [])
  else if is_alpha clean then ([], [], clean)
  else
    let parts := split_ws clean in
    let parts := List.filter truthy parts in
    if (2 <=? length parts)%nat then
      let surname := default [] (head parts) in
      let first_name := concat (tail parts) in
      let full_name := surname ++ [SPACE] ++ first_name in
      (surname, first_name, full_name)
    else ([], [], clean).

(** *** [_find_name_at_left] *)

(** [box[i][1]]; [IndexError] when the box has no such point. *)
Definition point_y (box : list (Z * Z)) (i : nat) : option Z :=
  snd <$> box !! i.

(** [min(p[0] for p in box)] and [max(p[0] for p in box)]; [ValueError]
    on an empty box. *)
Definition min_x (box : list (Z * Z)) : option Z :=
  match box with
  | [] => None
  | p :: ps => Some (foldl (fun m q => Z.min m (fst q)) (fst p) ps)
  end.

Definition max_x (box : list (Z * Z)) : option Z :=
  match box with
  | [] => None
  | p :: ps => Some (foldl (fun m q => Z.max m (fst q)) (fst p) ps)
  end.

(** [(box[0][1] + box[2][1]) / 2] *)
Definition box_cy (box : list (Z * Z)) : option Q :=
  y0 ← point_y box 0;
  y2 ← point_y box 2;
  Some (inject_Z (y0 + y2) / 2)%Q.

(** [abs(box[2][1] - box[0][1])] *)
Definition box_height (box : list (Z * Z)) : option Z :=
  y2 ← point_y box 2;
  y0 ← point_y box 0;
  Some (Z.abs (y2 - y0)).

(** The two [continue] tests that precede any look at the word's box. *)
Definition excluded (self : Extractor) (word : WordPrediction) : bool :=
  match name_exclusion self with
  | Some pat => re_search pat (content word)
  | None => false
  end.

Definition looks_like_id (self : Extractor) (word : WordPrediction) : bool :=
  truthy (student_id_prefix (config self))
  && contains (student_id_prefix (config self)) (content word).

(** [abs(w_cy - id_cy) < id_height * 0.8] *)
Definition aligned (w_cy id_cy : Q) (id_height : Z) : bool :=
  Qltb (Qabs (w_cy - id_cy)) (inject_Z id_height * (8 # 10)).

(** The first loop: the candidates [(word, w_right_x)] in scan order.  An
    exception at any word aborts the whole loop. *)
Fixpoint left_candidates (self : Extractor) (id_word : WordPrediction)
    (id_cy : Q) (id_height id_left_x : Z) (all_words : list WordPrediction)
    : option (list (WordPrediction * Z)) :=
  match all_words with
  | [] => Some []
  | word :: rest =>
      if word_eqb word id_word
      then left_candidates self id_word id_cy id_height id_left_x rest
      else if excluded self word
      then left_candidates self id_word id_cy id_height id_left_x rest
      else if looks_like_id self word
      then left_candidates self id_word id_cy id_height id_left_x rest
      else
        w_cy ← box_cy (points word);
        w_right_x ← max_x (points word);
        tl ← left_candidates self id_word id_cy id_height id_left_x rest;
        if aligned w_cy id_cy id_height && (w_right_x <? id_left_x)%Z
        then Some ((word, w_right_x) :: tl)
        else Some tl
  end.

(** [candidates.sort(key=lambda x: x[1], reverse=True)]: a stable sort,
    larger keys first, equal keys in their original order. *)
Fixpoint insert_desc (c : WordPrediction * Z) (l : list (WordPrediction * Z))
    : list (WordPrediction * Z) :=
  match l with
  | [] => [c]
  | d :: l' => if (snd d <=? snd c)%Z then c :: d :: l'
               else d :: insert_desc c l'
  end.

Fixpoint sort_desc (l : list (WordPrediction * Z)) : list (WordPrediction * Z) :=
  match l with
  | [] => []
  | c :: l' => insert_desc c (sort_desc l')
  end.

(** The second loop, with its two [break]s. *)
Fixpoint accumulate (id_height last_x : Z) (name_parts : list pystr)
    (cands : list (WordPrediction * Z)) : option (list pystr) :=
  match cands with
  | [] => Some name_parts
  | (word, x) :: rest =>
      let dist := (last_x - x)%Z in
      if (id_height * 5 <? dist)%Z then Some name_parts
      else
        let name_parts := content word :: name_parts in
        last_x ← min_x (points word);
        if (2 <=? length name_parts)%nat then Some name_parts
        else accumulate id_height last_x name_parts rest
  end.

Definition find_name_at_left (self : Extractor) (id_word : WordPrediction)
    (all_words : list WordPrediction) : option pystr :=
  let id_box := points id_word in
  id_cy ← box_cy id_box;
  id_height ← box_height id_box;
  id_left_x ← min_x id_box;
  candidates ← left_candidates self id_word id_cy id_height id_left_x all_words;
  let candidates := sort_desc candidates in
  name_parts ← accumulate id_height id_left_x [] candidates;
  Some (join [SPACE] name_parts).

(** *** [extract] *)

(** The first loop: words that contain an identifier and pass the
    confidence threshold, each with its match. *)
Fixpoint id_candidates (self : Extractor) (words : list WordPrediction)
    : list (WordPrediction * Match) :=
  match words with
  | [] => []
  | word :: rest =>
      match id_search (student_id_prefix (config self)) (content word) with
      | Some m =>
          if Qgeb (rec_score word) (confidence_threshold (config self))
          then (word, m) :: id_candidates self rest
          else id_candidates self rest
      | None => id_candidates self rest
      end
  end.

(** Where the raw name of a candidate comes from. *)
Inductive NameSource :=
  | Embedded (raw_name : pystr)
  | SpatialSearch.

(** The embedded check on [word.content[:match.start()]]. *)
Definition embedded_check (pre_id_content : pystr) : NameSource :=
  let clean_pre := strip pre_id_content in
  let clean_pre :=
    if truthy clean_pre && endswith_lparen clean_pre
    then strip (drop_last clean_pre) else clean_pre in
  if truthy clean_pre then Embedded clean_pre else SpatialSearch.

Definition locate_name (self : Extractor) (word : WordPrediction) (m : Match)
    (words : list WordPrediction) : option pystr :=
  match embedded_check (take (m_start m) (content word)) with
  | Embedded raw_name => Some raw_name
  | SpatialSearch => find_name_at_left self word words
  end.

Definition build_record (word : WordPrediction) (m : Match) (raw_name file : pystr)
    : StudentInfo :=
  let full_id := m_group1 m in
  let id_num := digits_only full_id in
  let '(surname, first_name, full_name) := parse_name raw_name in
  {| student_id_full := full_id;
     student_id_num := id_num;
     surname := surname;
     name := first_name;
     full_name := full_name;
     confidence := rec_score word;
     file_name := Some file |}.

(** The second loop, threading [seen_ids] and [students]. *)
Fixpoint build_records (self : Extractor) (words : list WordPrediction)
    (file : pystr) (seen_ids : gset pystr) (students : list StudentInfo)
    (candidates : list (WordPrediction * Match)) : option (list StudentInfo) :=
  match candidates with
  | [] => Some students
  | (word, m) :: rest =>
      let full_id := m_group1 m in
      if decide (full_id ∈ seen_ids)
      then build_records self words file seen_ids students rest
      else
        let seen_ids := {[full_id]} ∪ seen_ids in
        raw_name ← locate_name self word m words;
        build_records self words file seen_ids
          (students ++ [build_record word m raw_name file]) rest
  end.

Definition extract (self : Extractor) (words : list WordPrediction)
    (file : pystr) : option (list StudentInfo) :=
  build_records self words file ∅ [] (id_candidates self words).

End Extractor.

(** ** Reference notions the properties are stated against *)

(** The first occurrences of a list of identifiers, in order. *)
Fixpoint keep_first (ids : list pystr) : list pystr :=
  match ids with
  | [] => []
  | x :: l => x :: List.filter (fun y => negb (bool_decide (y = x))) (keep_first l)
  end.

(** The identifier a candidate carries. *)
Definition cand_id (c : WordPrediction * Match) : pystr := m_group1 (snd c).

(** Where a record comes from: the first candidate that carries its
    identifier. *)
Definition made_from `{RT : PyRuntime} (self : Extractor)
    (words : list WordPrediction) (file : pystr)
    (cands : list (WordPrediction * Match)) (seen : gset pystr)
    (r : StudentInfo) : Prop :=
  exists pre word m post raw,
    cands = pre ++ (word, m) :: post /\
    (m_group1 m ∉ seen) /\
    Forall (fun c => cand_id c <> m_group1 m) pre /\
    locate_name self word m words = Some raw /\
    r = build_record word m raw file.

(** The identifier a word of the page carries past the confidence gate,
    if any. *)
Definition passing_id `{RT : PyRuntime} (self : Extractor)
    (word : WordPrediction) : option pystr :=
  match id_search (student_id_prefix (config self)) (content word) with
  | Some m =>
      if Qle_bool (confidence_threshold (config self)) (rec_score word)
      then Some (m_group1 m) else None
  | None => None
  end.

(** A record read against the page itself: it is built from a word that
    holds its identifier and passes the gate, and no word earlier in the
    scan carries that identifier past the gate. *)
Definition first_carrier `{RT : PyRuntime} (self : Extractor)
    (words : list WordPrediction) (file : pystr) (r : StudentInfo) : Prop :=
  exists pre word post m raw,
    words = pre ++ word :: post /\
    id_search (student_id_prefix (config self)) (content word) = Some m /\
    (confidence_threshold (config self) <= rec_score word)%Q /\
    Forall (fun w => passing_id self w <> Some (m_group1 m)) pre /\
    locate_name self word m words = Some raw /\
    r = build_record word m raw file.

(** An ASCII letter, by its code point: A to Z or a to z. *)
Definition ascii_letter (c : char) : Prop :=
  (0x41 <= c /\ c <= 0x5A) \/ (0x61 <= c /\ c <= 0x7A).

#[global] Instance ascii_letter_dec (c : char) : Decision (ascii_letter c).
Proof. unfold ascii_letter. apply _. Defined.


(** A delimiter of the name splitter: whitespace or the ideographic space. *)
Definition is_delim (c : char) : bool := is_space c || (c =? IDEOGRAPHIC_SPACE).

(** [segments s segs]: [segs] are the maximal delimiter-free runs of [s],
    left to right. *)
Inductive segments : pystr -> list pystr -> Prop :=
  | segments_end sep :
      Forall (fun c => is_delim c = true) sep ->
      segments sep []
  | segments_seg sep seg rest segs :
      Forall (fun c => is_delim c = true) sep ->
      seg <> [] ->
      Forall (fun c => is_delim c = false) seg ->
      (is_delim <$> head rest) <> Some false ->
      segments rest segs ->
      segments (sep ++ seg ++ rest) (seg :: segs).

(** An axis-aligned rectangle, corners in the order top-left, top-right,
    bottom-right, bottom-left. *)
Definition rect (x0 x1 y0 y1 : Z) : list (Z * Z) :=
  [(x0, y0); (x1, y0); (x1, y1); (x0, y1)].

(** The box geometry as the design text words it, for corners in the order
    top-left, top-right, bottom-right, bottom-left: the left edge joins the
    first and the fourth point. *)
Definition left_edge_cy (box : list (Z * Z)) : option Q :=
  y_tl ← point_y box 0;
  y_bl ← point_y box 3;
  Some (inject_Z (y_tl + y_bl) / 2)%Q.

Definition left_edge_height (box : list (Z * Z)) : option Z :=
  y_tl ← point_y box 0;
  y_bl ← point_y box 3;
  Some (Z.abs (y_bl - y_tl)).

(** The order the candidates are visited in: right edges never increase. *)
Definition further_left (a b : WordPrediction * Z) : Prop := (snd b <= snd a)%Z.

(** The embedded check as the design text words it: trim, strip one
    trailing opening parenthesis, trim again. *)
Definition trailing_paren_trimmed (pre : pystr) : pystr :=
  match rev (strip pre) with
  | c :: body => if c =? LPAREN then strip (rev body) else strip pre
  | [] => []
  end.

(** A text of whitespace only. *)
Definition blank (s : pystr) : Prop := Forall (fun c => is_space c = true) s.

(** What the embedded check may answer on the text [pre] before the
    identifier, said without the trimming functions.  A raw name is a
    non-empty stretch of [pre] with no whitespace at either end, preceded
    by whitespace only and followed either by whitespace only (and then it
    does not end with an opening parenthesis) or by whitespace, one opening
    parenthesis and whitespace.  The spatial search is asked for when [pre]
    is whitespace, with at most one opening parenthesis in it. *)
Definition embedded_shape (pre : pystr) (src : NameSource) : Prop :=
  match src with
  | Embedded raw =>
      exists l r,
        pre = l ++ raw ++ r /\ blank l /\ raw <> [] /\
        (is_space <$> head raw) <> Some true /\
        (is_space <$> last raw) <> Some true /\
        ((blank r /\ last raw <> Some LPAREN) \/
         (exists r1 r2, r = r1 ++ LPAREN :: r2 /\ blank r1 /\ blank r2))
  | SpatialSearch =>
      blank pre \/ exists a b, pre = a ++ LPAREN :: b /\ blank a /\ blank b
  end.

(** Two optional rationals that denote the same result. *)
Definition same_value (a b : option Q) : Prop :=
  match a, b with
  | Some x, Some y => (x == y)%Q
  | None, None => True
  | _, _ => False
  end.

(** A box as the word schema validates it. *)
Definition well_formed (word : WordPrediction) : Prop :=
  length (points word) = 4%nat.

(** ** A runtime for worked examples

    The decimal digits of ASCII, and the fragment of [re] made of literal
    patterns (no metacharacter) and of one bracketed class of literal or
    backslash-escaped punctuation.  On ASCII text and on patterns of the
    fragment it computes what CPython computes; a pattern outside the
    fragment is not compiled. *)
Module Fragment.

Inductive pattern :=
  | Literal (s : pystr)
  | CharClass (cs : list char).

Definition is_ascii_digit (c : char) : bool := (0x30 <=? c) && (c <=? 0x39).

Definition is_meta (c : char) : bool :=
  existsb (N.eqb c)
    [0x2E; 0x5E; 0x24; 0x2A; 0x2B; 0x3F; 0x7B; 0x7D; 0x5B; 0x5D; 0x5C; 0x7C; 0x28; 0x29].

Definition plain_punct (c : char) : bool :=
  (c <? 0x80) && negb (is_ascii_digit c) && negb (is_ascii_alpha c)
  && negb (c =? 0x5F).

(** The items of a class up to its closing bracket. *)
Fixpoint parse_class (body : pystr) : option (list char) :=
  match body with
  | [] => None
  | c :: rest =>
      if c =? 0x5D then match rest with [] => Some [] | _ => None end
      else if c =? 0x5C then
        match rest with
        | e :: rest' => if plain_punct e then cons e <$> parse_class rest' else None
        | [] => None
        end
      else if (c =? 0x5B) || (c =? 0x2D) then None
      else cons c <$> parse_class rest
  end.

Definition compile (p : pystr) : option pattern :=
  match p with
  | 0x5B :: c :: body =>
      if (c =? 0x5E) || (c =? 0x5D) then None
      else CharClass <$> parse_class (c :: body)
  | _ => if existsb is_meta p then None else Some (Literal p)
  end.

Definition search (pat : pattern) (s : pystr) : bool :=
  match pat with
  | Literal p => contains p s
  | CharClass cs => existsb (fun c => existsb (N.eqb c) cs) s
  end.

#[export] Instance runtime : PyRuntime := {|
  is_decimal := is_ascii_digit;
  Pattern := pattern;
  re_compile := compile;
  re_search := search |}.

End Fragment.

(** ** Worked inputs *)
Module Sample.

(** "px-" *)
Definition px : pystr := [0x70; 0x78; 0x2D].
(** Yamada, Taro, in kanji *)
Definition yamada : pystr := [0x5C71; 0x7530].
Definition taro : pystr := [0x592A; 0x90CE].

Definition cfg : AttendCheckConfig :=
  {| student_id_pattern := [];
     student_id_prefix := px;
     name_exclusion_pattern := Some default_name_exclusion_pattern;
     confidence_threshold := (5 # 10)%Q |}.

Definition word (box : list (Z * Z)) (text : pystr) (score : Q) : WordPrediction :=
  {| points := box; content := text; direction := [];
     rec_score := score; det_score := 1%Q |}.

(** "山田太郎(px-0000001)" in one word *)
Definition embedded_text : pystr :=
  yamada ++ taro ++ [LPAREN] ++ px ++ [0x30; 0x30; 0x30; 0x30; 0x30; 0x30; 0x31] ++ [RPAREN].
Definition w_embedded : WordPrediction := word (rect 0 300 0 20) embedded_text (9 # 10).
(** the same text on a box with two points only *)
Definition w_embedded_short : WordPrediction := word [(0, 0); (300, 0)]%Z embedded_text (9 # 10).

(** " 山田 太郎　( px-0000001)": blanks around the name and the parenthesis,
    on a box of one point *)
Definition spaced_text : pystr :=
  [SPACE] ++ yamada ++ [SPACE] ++ taro ++ [IDEOGRAPHIC_SPACE; LPAREN; SPACE]
  ++ px ++ [0x30; 0x30; 0x30; 0x30; 0x30; 0x30; 0x31] ++ [RPAREN].
Definition w_spaced_short : WordPrediction := word [(0, 0)]%Z spaced_text (9 # 10).

(** "山田" at x in [0,50] and "px-0000002" at x in [120,220], one line *)
Definition id2 : pystr := px ++ [0x30; 0x30; 0x30; 0x30; 0x30; 0x30; 0x32].
Definition w_name : WordPrediction := word (rect 0 50 100 120) yamada (8 # 10).
Definition w_id2 : WordPrediction := word (rect 120 220 100 120) id2 (9 # 10).
(** the same identifier again, lower on the page, and once below threshold *)
Definition w_id2_again : WordPrediction := word (rect 120 220 200 220) id2 (7 # 10).
Definition w_id2_faint : WordPrediction := word (rect 120 220 300 320) id2 (3 # 10).
(** a word far to the left on the same line: gap 120 - 10 > 5 * 20 *)
Definition w_far : WordPrediction := word (rect 0 10 100 120) taro (9 # 10).
(** a bare number *)
Definition w_number : WordPrediction := word (rect 0 40 400 420) [0x34; 0x32] (9 # 10).

(** A slanted box: the right edge sits lower than the left one. *)
Definition slanted : list (Z * Z) := [(0, 0); (100, 10); (100, 30); (0, 20)]%Z.

Definition page : list WordPrediction :=
  [w_name; w_id2; w_embedded; w_id2_again; w_id2_faint].

(** the identifier first on a weaker word, later on a stronger one *)
Definition page_repeat : list WordPrediction := [w_id2_again; w_embedded; w_id2].

(** "太郎" between the surname and the identifier *)
Definition w_given : WordPrediction := word (rect 60 110 100 120) taro (8 # 10).
Definition page_two_words : list WordPrediction := [w_far; w_name; w_given; w_id2].

(** Two words that end at the same x, one above the other *)
Definition w_upper : WordPrediction := word (rect 60 110 95 115) yamada (8 # 10).
Definition w_lower : WordPrediction := word (rect 60 110 105 125) taro (8 # 10).

(** The extractor built from [cfg] by the example runtime. *)
Definition self : @Extractor Fragment.runtime :=
  @Build_Extractor Fragment.runtime cfg (Fragment.Literal [])
    (Some (Fragment.CharClass
             [0x21; 0x40; 0x23; 0x24; 0x25; 0x5E; 0x26; 0x2A; 0x28; 0x29;
              0x2C; 0x2E; 0x3F; 0x22; 0x3A; 0x7B; 0x7D; 0x7C; 0x3C; 0x3E])).

Definition id1 : pystr := px ++ [0x30; 0x30; 0x30; 0x30; 0x30; 0x30; 0x31].

Definition record (full_id family given full : pystr) (score : Q) : StudentInfo :=
  {| student_id_full := full_id;
     student_id_num := drop 3 full_id;
     surname := family;
     name := given;
     full_name := full;
     confidence := score;
     file_name := Some [] |}.

(** What [extract] returns on [page] and on [page_two_words]. *)
Definition records : list StudentInfo :=
  [record id2 [] [] yamada (9 # 10); record id1 [] [] (yamada ++ taro) (9 # 10)].
Definition records_two_words : list StudentInfo :=
  [record id2 yamada taro (yamada ++ [SPACE] ++ taro) (9 # 10)].
(** On [page_repeat] the first word wins, with its own score. *)
Definition records_repeat : list StudentInfo :=
  [record id2 [] [] [] (7 # 10); record id1 [] [] (yamada ++ taro) (9 # 10)].

End Sample.

(** ** Further notions for the identifier search and the spatial search *)

Section SearchNotions.
Context `{RT : PyRuntime}.

(** The identifier pattern matches at offset [k] of [s]: the prefix, then
    at least one decimal digit. *)
Definition occurs_at (prefix s : pystr) (k : nat) : Prop :=
  exists d rest, drop k s = prefix ++ d :: rest /\ is_decimal d = true.

(** A word whose box the spatial search reads: none of the three
    [continue] tests skips it. *)
Definition inspected (self : Extractor) (id_word word : WordPrediction) : Prop :=
  word_eqb word id_word = false /\
  excluded self word = false /\
  looks_like_id self word = false.

(** What one word adds to the candidates of the spatial search when no
    box is too short: itself with its right edge, or nothing. *)
Definition candidate_of (self : Extractor) (id_word : WordPrediction)
    (id_cy : Q) (id_height id_left_x : Z) (word : WordPrediction)
    : list (WordPrediction * Z) :=
  if word_eqb word id_word || excluded self word || looks_like_id self word
  then []
  else
    match box_cy (points word), max_x (points word) with
    | Some w_cy, Some w_right_x =>
        if aligned w_cy id_cy id_height && (w_right_x <? id_left_x)%Z
        then [(word, w_right_x)] else []
    | _, _ => []
    end.

End SearchNotions.

(** ** ASCII literals as Python strings *)

Delimit Scope string_scope with string.

Definition py (s : String.string) : pystr :=
  map Ascii.N_of_ascii (String.list_ascii_of_string s).
Arguments py s%_string.

(** ** [os.path] on a POSIX system *)
Module PosixPath.

Definition SLASH : char := 0x2F.
Definition DOT : char := 0x2E.

(** [s.rfind(c)]: the last index of [c], or -1. *)
Fixpoint rfind (c : char) (s : pystr) : Z :=
  match s with
  | [] => (-1)%Z
  | d :: s' =>
      let r := rfind c s' in
      if (0 <=? r)%Z then (r + 1)%Z else if d =? c then 0%Z else (-1)%Z
  end.

(** [os.path.basename] *)
Definition basename (p : pystr) : pystr :=
  let i := (rfind SLASH p + 1)%Z in
  drop (Z.to_nat i) p.

(** [os.path.splitext]: the extension starts at the last dot, unless that
    dot comes before the last separator or only dots precede it in the
    file name. *)
Definition splitext (p : pystr) : pystr * pystr :=
  let sepIndex := rfind SLASH p in
  let dotIndex := rfind DOT p in
  if (sepIndex <? dotIndex)%Z
     && existsb (fun c => negb (c =? DOT))
          (take (Z.to_nat (dotIndex - (sepIndex + 1)))
             (drop (Z.to_nat (sepIndex + 1)) p))
  then (take (Z.to_nat dotIndex) p, drop (Z.to_nat dotIndex) p)
  else (p, []).

(** [os.path.join(a, b)] *)
Definition join (a b : pystr) : pystr :=
  if default false ((fun c => c =? SLASH) <$> head b) then b
  else if negb (truthy a) || default false ((fun c => c =? SLASH) <$> last a)
  then a ++ b
  else a ++ [SLASH] ++ b.

End PosixPath.

(** ** [writer.CSVWriter]

    A file is the table handed to [csv.DictWriter], header row first; the
    text the [csv] module makes of a row is not modelled.  The file system
    maps a path to the table last written there. *)

(** A value of [StudentInfo.model_dump()] or a cell of the table. *)
Inductive Value :=
  | VStr (s : pystr)
  | VFloat (q : Q)
  | VNone.

Definition Table := list (list Value).

(** [s.model_dump()]: the fields in declaration order. *)
Definition model_dump (s : StudentInfo) : list (pystr * Value) :=
  [(py "student_id_full", VStr (student_id_full s));
   (py "student_id_num", VStr (student_id_num s));
   (py "surname", VStr (surname s));
   (py "name", VStr (name s));
   (py "full_name", VStr (full_name s));
   (py "confidence", VFloat (confidence s));
   (py "file_name", match file_name s with Some f => VStr f | None => VNone end)].

Definition fieldnames : list pystr :=
  [py "surname"; py "name"; py "full_name"; py "student_id_full";
   py "student_id_num"; py "confidence"].

(** [rowdict.get(key, "")] *)
Fixpoint dict_get (rowdict : list (pystr * Value)) (key : pystr) : Value :=
  match rowdict with
  | [] => VStr []
  | (k, v) :: rest => if bool_decide (k = key) then v else dict_get rest key
  end.

(** [del data[key]]; [KeyError] when the key is missing. *)
Fixpoint dict_del (key : pystr) (data : list (pystr * Value))
    : option (list (pystr * Value)) :=
  match data with
  | [] => None
  | (k, v) :: rest =>
      if bool_decide (k = key) then Some rest
      else cons (k, v) <$> dict_del key rest
  end.

Inductive ExtrasAction := ExtrasRaise | ExtrasIgnore.

(** [DictWriter._dict_to_list]: under [ExtrasRaise] a key outside the
    field names is a [ValueError]. *)
Definition dict_to_list (extrasaction : ExtrasAction) (fields : list pystr)
    (rowdict : list (pystr * Value)) : option (list Value) :=
  let wrong_fields :=
    List.filter (fun k => negb (bool_decide (k ∈ fields))) (map fst rowdict) in
  match extrasaction, wrong_fields with
  | ExtrasRaise, _ :: _ => None
  | _, _ => Some (map (dict_get rowdict) fields)
  end.

(** [writer.writeheader()] *)
Definition header_row : list Value := map VStr fieldnames.

(** The row of a student in the column order of the header. *)
Definition csv_row (s : StudentInfo) : list Value :=
  [VStr (surname s); VStr (name s); VStr (full_name s);
   VStr (student_id_full s); VStr (student_id_num s); VFloat (confidence s)].

(** [CSVWriter.write_merged] *)
Definition write_merged (students : list StudentInfo) (output_path : pystr)
    (fs : gmap pystr Table) : option (gmap pystr Table) :=
  rows ← mapM (fun s => dict_to_list ExtrasIgnore fieldnames (model_dump s)) students;
  Some (<[output_path := header_row :: rows]> fs).

(** [CSVWriter.write_split]; a missing file name is a [TypeError] in
    [os.path.basename]. *)
Definition write_split (students : list StudentInfo)
    (original_file_path : option pystr) (output_dir : pystr)
    (fs : gmap pystr Table) : option (gmap pystr Table) :=
  match students with
  | [] => Some fs
  | _ :: _ =>
      original ← original_file_path;
      let base_name := fst (PosixPath.splitext (PosixPath.basename original)) in
      let output_path := PosixPath.join output_dir (base_name ++ py "_result.csv") in
      rows ← mapM (fun s =>
                     data ← dict_del (py "file_name") (model_dump s);
                     dict_to_list ExtrasRaise fieldnames data) students;
      Some (<[output_path := header_row :: rows]> fs)
  end.

(** ** [main]: the processing loop and the output selection

    A file comes with the word lists the OCR engine returned for its
    images; a failure of [extract] on any image is the exception that makes
    the loop skip the file. *)

Section Driver.
Context `{RT : PyRuntime}.

(** The body of the [try] for one file. *)
Definition process_file (self : Extractor) (fpath : pystr)
    (imgs : list (list WordPrediction)) : option (list StudentInfo) :=
  per_image ← mapM (fun words => extract self words (PosixPath.basename fpath)) imgs;
  Some (concat per_image).

(** The loop over the files, threading [all_results]. *)
Fixpoint process_files (self : Extractor)
    (files : list (pystr * list (list WordPrediction)))
    (all_results : list StudentInfo) : list StudentInfo :=
  match files with
  | [] => all_results
  | (fpath, imgs) :: rest =>
      match process_file self fpath imgs with
      | Some file_students => process_files self rest (all_results ++ file_students)
      | None => process_files self rest all_results
      end
  end.

End Driver.

(** [grouped[s.file_name].append(s)] on a dictionary that keeps insertion
    order. *)
Fixpoint group_add (key : option pystr) (s : StudentInfo)
    (grouped : list (option pystr * list StudentInfo))
    : list (option pystr * list StudentInfo) :=
  match grouped with
  | [] => [(key, [s])]
  | (k, students) :: rest =>
      if bool_decide (k = key) then (k, students ++ [s]) :: rest
      else (k, students) :: group_add key s rest
  end.

(** The regrouping of the split mode. *)
Definition group_by_file (all_results : list StudentInfo)
    : list (option pystr * list StudentInfo) :=
  foldl (fun grouped s => group_add (file_name s) s grouped) [] all_results.

(** The records filed under one name. *)
Definition filed_under (key : option pystr) (all_results : list StudentInfo)
    : list StudentInfo :=
  List.filter (fun s => bool_decide (file_name s = key)) all_results.

(** What the regrouping keeps true: distinct keys, and under each key the
    non-empty list of the records of that file name, in their order. *)
Definition grouped_by_name (grouped : list (option pystr * list StudentInfo))
    (all_results : list StudentInfo) : Prop :=
  NoDup (map fst grouped) /\
  Forall (fun g => snd g <> [] /\ snd g = filed_under (fst g) all_results) grouped /\
  Forall (fun s => file_name s ∈ map fst grouped) all_results.

(** The loop over [grouped.items()] of the split mode. *)
Fixpoint save_split (grouped : list (option pystr * list StudentInfo))
    (out_dir : pystr) (fs : gmap pystr Table) : option (gmap pystr Table) :=
  match grouped with
  | [] => Some fs
  | (fname, students) :: rest =>
      fs' ← write_split students fname out_dir fs;
      save_split rest out_dir fs'
  end.

(** ** Properties *)

(** *** Lists of identifiers *)

Lemma filter_filter_comm {A} (P R : A -> bool) (l : list A) :
  List.filter P (List.filter R l) = List.filter R (List.filter P l).
Proof.
  induction l as [|a l IH]; simpl; [reflexivity|].
  destruct (R a) eqn:HR, (P a) eqn:HP; simpl; rewrite ?HR, ?HP, IH; reflexivity.
Qed.

Lemma filter_absorb {A} (P R : A -> bool) (l : list A) :
  (forall a, R a = false -> P a = false) ->
  List.filter P (List.filter R l) = List.filter P l.
Proof.
  intros HPR. induction l as [|a l IH]; simpl; [reflexivity|].
  destruct (R a) eqn:HR; simpl; rewrite IH; [reflexivity|].
  rewrite (HPR a HR). reflexivity.
Qed.

Lemma filter_andb {A} (P R : A -> bool) (l : list A) :
  List.filter P (List.filter R l) = List.filter (fun a => P a && R a) l.
Proof.
  induction l as [|a l IH]; simpl; [reflexivity|].
  destruct (R a) eqn:HR; simpl; rewrite IH, ?andb_false_r, ?andb_true_r;
    reflexivity.
Qed.

Lemma keep_first_filter (P : pystr -> bool) (l : list pystr) :
  keep_first (List.filter P l) = List.filter P (keep_first l).
Proof.
  induction l as [|x l IH]; simpl; [reflexivity|].
  destruct (P x) eqn:HP; simpl; rewrite IH.
  - f_equal. apply filter_filter_comm.
  - symmetry. apply filter_absorb.
    intros a Ha. apply negb_false_iff, bool_decide_eq_true in Ha.
    subst a. exact HP.
Qed.

Lemma elem_of_keep_first (x : pystr) (l : list pystr) :
  x ∈ keep_first l <-> x ∈ l.
Proof.
  induction l as [|y l IH]; simpl; [reflexivity|].
  rewrite !elem_of_cons, list_elem_of_In, filter_In, <- list_elem_of_In, IH.
  rewrite negb_true_iff, bool_decide_eq_false.
  destruct (decide (x = y)); tauto.
Qed.

Lemma NoDup_filter_bool {A} (P : A -> bool) (l : list A) :
  NoDup l -> NoDup (List.filter P l).
Proof.
  induction 1 as [|a l Hin Hnd IH]; simpl; [constructor|].
  destruct (P a); [|exact IH].
  constructor; [|exact IH].
  rewrite list_elem_of_In, filter_In, <- list_elem_of_In. tauto.
Qed.

Lemma NoDup_keep_first (l : list pystr) : NoDup (keep_first l).
Proof.
  induction l as [|x l IH]; simpl; constructor.
  - rewrite list_elem_of_In, filter_In, negb_true_iff, bool_decide_eq_false.
    tauto.
  - apply NoDup_filter_bool, IH.
Qed.

(** *** The record loop *)

Section RecordLoop.
Context `{RT : PyRuntime}.

Lemma build_record_id (word : WordPrediction) (m : Match) (raw file : pystr) :
  student_id_full (build_record word m raw file) = m_group1 m.
Proof. unfold build_record. destruct (parse_name raw) as [[? ?] ?]. reflexivity. Qed.

Lemma build_record_confidence (word : WordPrediction) (m : Match) (raw file : pystr) :
  confidence (build_record word m raw file) = rec_score word.
Proof. unfold build_record. destruct (parse_name raw) as [[? ?] ?]. reflexivity. Qed.

Lemma build_record_names (word : WordPrediction) (m : Match) (raw file : pystr) :
  (surname (build_record word m raw file), name (build_record word m raw file),
   full_name (build_record word m raw file)) = parse_name raw.
Proof. unfold build_record. destruct (parse_name raw) as [[? ?] ?]. reflexivity. Qed.

(** Identifiers of the output: those already emitted, then the first
    occurrences among the candidates not yet seen. *)
Lemma build_records_ids self words file seen students cands recs :
  build_records self words file seen students cands = Some recs ->
  map student_id_full recs =
    map student_id_full students ++
    keep_first (List.filter (fun x => negb (bool_decide (x ∈ seen))) (map cand_id cands)).
Proof.
  revert seen students.
  induction cands as [|[word m] rest IH]; intros seen students Hrun; simpl in *.
  - inversion Hrun; subst. rewrite app_nil_r. reflexivity.
  - unfold cand_id at 1; simpl. destruct (decide (m_group1 m ∈ seen)) as [Hin|Hout].
    + rewrite (bool_decide_eq_true_2 _ Hin). simpl. apply IH, Hrun.
    + rewrite (bool_decide_eq_false_2 _ Hout). simpl.
      destruct (locate_name self word m words) as [raw|] eqn:Hloc; [|discriminate].
      simpl in Hrun. rewrite (IH _ _ Hrun), map_app. simpl.
      rewrite build_record_id, <- app_assoc. simpl. do 2 f_equal.
      rewrite <- keep_first_filter, filter_andb. f_equal.
      apply filter_ext. intros y. unfold cand_id; simpl.
      rewrite <- negb_orb. f_equal. apply eq_true_iff_eq.
      rewrite orb_true_iff, !bool_decide_eq_true. set_solver.
Qed.

Lemma build_records_origin self words file seen students cands recs :
  build_records self words file seen students cands = Some recs ->
  forall r, r ∈ recs -> r ∈ students \/ made_from self words file cands seen r.
Proof.
  revert seen students.
  induction cands as [|[word m] rest IH]; intros seen students Hrun r Hr; simpl in *.
  - inversion Hrun; subst. left. exact Hr.
  - destruct (decide (m_group1 m ∈ seen)) as [Hin|Hout].
    + destruct (IH _ _ Hrun r Hr) as [?|(pre & w & m' & post & raw & -> & Hs & Hpre & Hloc & ->)];
        [left; assumption|right].
      exists ((word, m) :: pre), w, m', post, raw. repeat split; try assumption.
      constructor; [|assumption]. unfold cand_id; simpl. congruence.
    + destruct (locate_name self word m words) as [raw0|] eqn:Hloc0; [|discriminate].
      simpl in Hrun.
      destruct (IH _ _ Hrun r Hr) as [Hst|(pre & w & m' & post & raw & -> & Hs & Hpre & Hloc & ->)].
      * apply elem_of_app in Hst as [?|Hlast]; [left; assumption|right].
        apply list_elem_of_singleton in Hlast. subst r.
        exists [], word, m, rest, raw0. repeat split; try assumption. constructor.
      * right. exists ((word, m) :: pre), w, m', post, raw.
        repeat split; try assumption; [set_solver|].
        constructor; [|assumption]. unfold cand_id; simpl. set_solver.
Qed.

(** The candidates are the words that hold an identifier and pass the
    threshold, in scan order. *)
Lemma elem_of_id_candidates self words word m :
  (word, m) ∈ id_candidates self words <->
  word ∈ words /\
  id_search (student_id_prefix (config self)) (content word) = Some m /\
  (confidence_threshold (config self) <= rec_score word)%Q.
Proof.
  unfold Qgeb. induction words as [|w rest IH]; simpl.
  - rewrite elem_of_nil. split; [tauto|]. intros [H _]. inversion H.
  - destruct (id_search _ (content w)) as [m'|] eqn:Hs.
    + destruct (Qgeb _ _) eqn:Hq; unfold Qgeb in Hq.
      * rewrite !elem_of_cons, IH. apply Qle_bool_iff in Hq.
        split.
        -- intros [Heq|(? & ? & ?)]; [inversion Heq; subst; tauto|tauto].
        -- intros ([->|?] & Hm & Hle); [left|right; tauto].
           rewrite Hs in Hm. congruence.
      * rewrite IH, elem_of_cons. split; [tauto|].
        intros ([->|?] & Hm & Hle); [|tauto].
        apply Qle_bool_iff in Hle. congruence.
    + rewrite IH, elem_of_cons. split; [tauto|].
      intros ([->|?] & Hm & Hle); [congruence|tauto].
Qed.

(** The candidates follow the scan: their identifiers are those the words
    carry past the gate, word by word. *)
Lemma id_candidates_ids self words :
  map cand_id (id_candidates self words) = omap (passing_id self) words.
Proof.
  induction words as [|w rest IH]; simpl; [reflexivity|].
  unfold passing_id at 1, Qgeb.
  destruct (id_search _ (content w)) as [m|]; [|exact IH].
  destruct (Qle_bool _ _); simpl; rewrite IH; reflexivity.
Qed.

Lemma passing_id_candidate self words w id :
  w ∈ words -> passing_id self w = Some id ->
  exists m, (w, m) ∈ id_candidates self words /\ m_group1 m = id.
Proof.
  unfold passing_id. intros Hin.
  destruct (id_search _ (content w)) as [m|] eqn:Hs; [|discriminate].
  destruct (Qle_bool _ _) eqn:Hq; [|discriminate].
  intros [= <-]. exists m. split; [|reflexivity].
  apply elem_of_id_candidates. apply Qle_bool_iff in Hq. tauto.
Qed.

(** A position among the candidates is a position in the page. *)
Lemma id_candidates_split self words cpre word m cpost :
  id_candidates self words = cpre ++ (word, m) :: cpost ->
  exists pre post,
    words = pre ++ word :: post /\
    id_candidates self pre = cpre /\
    id_search (student_id_prefix (config self)) (content word) = Some m /\
    (confidence_threshold (config self) <= rec_score word)%Q.
Proof.
  revert cpre. induction words as [|w rest IH]; intros cpre; simpl.
  - destruct cpre; discriminate.
  - assert (Hskip : id_candidates self rest = cpre ++ (word, m) :: cpost ->
                    id_candidates self [w] = [] ->
                    exists pre post,
                      w :: rest = pre ++ word :: post /\
                      id_candidates self pre = cpre /\
                      id_search (student_id_prefix (config self)) (content word) = Some m /\
                      (confidence_threshold (config self) <= rec_score word)%Q).
    { intros Hrest Hw. destruct (IH _ Hrest) as (pre & post & -> & Hpre & Hs & Hq).
      exists (w :: pre), post. split; [reflexivity|]. split; [|tauto].
      simpl in *. destruct (id_search _ (content w)); [destruct (Qgeb _ _)|];
        try discriminate; exact Hpre. }
    simpl in Hskip.
    destruct (id_search _ (content w)) as [mw|] eqn:Hs;
      [|intros H; apply Hskip; [exact H|reflexivity]].
    destruct (Qgeb _ _) eqn:Hq; [|intros H; apply Hskip; [exact H|reflexivity]].
    clear Hskip. destruct cpre as [|c cpre]; simpl.
    + intros [= -> -> <-]. exists [], rest. repeat split; try assumption.
      unfold Qgeb in Hq. apply Qle_bool_iff, Hq.
    + intros [= <- Hrest]. destruct (IH _ Hrest) as (pre & post & -> & Hpre & Hs' & Hq').
      exists (w :: pre), post. split; [reflexivity|]. split; [|tauto].
      simpl. rewrite Hs, Hq, Hpre. reflexivity.
Qed.

Lemma made_from_first_carrier self words file r :
  made_from self words file (id_candidates self words) ∅ r ->
  first_carrier self words file r.
Proof.
  intros (cpre & word & m & cpost & raw & Hc & _ & Hfirst & Hloc & ->).
  destruct (id_candidates_split _ _ _ _ _ _ Hc) as (pre & post & -> & Hpre & Hs & Hq).
  exists pre, word, post, m, raw. repeat split; try assumption.
  apply Forall_forall. intros w Hw Hid.
  destruct (passing_id_candidate self pre w _ Hw Hid) as (mw & Hin & Hg).
  rewrite Hpre in Hin. rewrite Forall_forall in Hfirst.
  apply (Hfirst _ Hin). exact Hg.
Qed.

End RecordLoop.

(** *** Deduplication and the confidence gate *)

Section ExtractProperties.
Context `{RT : PyRuntime}.

(** C1. The identifiers of the returned records are pairwise distinct;
    they are the first occurrences, in the scan order of the page, of the
    identifiers its words carry past the confidence gate; each record is
    built from the first word of the page that carries its identifier past
    the gate, later carriers being dropped. *)
Theorem extract_ids_unique_first_wins self words file recs :
  extract self words file = Some recs ->
  NoDup (map student_id_full recs) /\
  map student_id_full recs = keep_first (map cand_id (id_candidates self words)) /\
  Forall (made_from self words file (id_candidates self words) ∅) recs /\
  map student_id_full recs = keep_first (omap (passing_id self) words) /\
  Forall (first_carrier self words file) recs.
Proof.
  intros Hrun. unfold extract in Hrun.
  assert (Hids : map student_id_full recs =
                 keep_first (map cand_id (id_candidates self words))).
  { rewrite (build_records_ids _ _ _ _ _ _ _ Hrun). simpl. f_equal.
    rewrite <- (filter_ext (fun _ => true)).
    - induction (map cand_id _) as [|a l IH]; simpl; congruence.
    - intros a. symmetry. apply negb_true_iff, bool_decide_eq_false.
      apply not_elem_of_empty. }
  assert (Hmade : Forall (made_from self words file (id_candidates self words) ∅) recs).
  { apply Forall_forall. intros r Hr.
    destruct (build_records_origin _ _ _ _ _ _ _ Hrun r Hr) as [Hnil|Hmade];
      [inversion Hnil|exact Hmade]. }
  split; [rewrite Hids; apply NoDup_keep_first|].
  split; [exact Hids|].
  split; [exact Hmade|].
  split; [rewrite Hids, id_candidates_ids; reflexivity|].
  eapply Forall_impl; [exact Hmade|]. apply made_from_first_carrier.
Qed.

(** C2. A word whose content holds an identifier is a candidate exactly
    when its confidence reaches the threshold, and every record of the
    output carries the confidence of such a word: a word below the
    threshold yields no record. *)
Theorem candidate_iff_confidence self words word m :
  word ∈ words ->
  id_search (student_id_prefix (config self)) (content word) = Some m ->
  ((word, m) ∈ id_candidates self words <->
   (confidence_threshold (config self) <= rec_score word)%Q) /\
  ((rec_score word < confidence_threshold (config self))%Q ->
   forall file recs, extract self words file = Some recs ->
   Forall (fun r => exists w' m' raw,
             (w', m') ∈ id_candidates self words /\
             r = build_record w' m' raw file /\
             w' <> word /\
             (confidence_threshold (config self) <= confidence r)%Q) recs).
Proof.
  intros Hin Hsearch. split.
  - rewrite elem_of_id_candidates. tauto.
  - intros Hlow file recs Hrun. apply Forall_forall. intros r Hr.
    destruct (build_records_origin _ _ _ _ _ _ _ Hrun r Hr)
      as [Hnil|(pre & w' & m' & post & raw & Hc & _ & _ & _ & ->)];
      [inversion Hnil|].
    assert (Hcand : (w', m') ∈ id_candidates self words).
    { rewrite Hc. apply elem_of_app. right. apply elem_of_cons. left. reflexivity. }
    exists w', m', raw. split; [exact Hcand|]. split; [reflexivity|].
    apply elem_of_id_candidates in Hcand as (_ & _ & Hle).
    rewrite build_record_confidence. split; [|exact Hle].
    intros ->. exact (Qlt_not_le _ _ Hlow Hle).
Qed.

End ExtractProperties.

Example sample_extractor : Extractor_init Sample.cfg = Some Sample.self.
Proof. reflexivity. Qed.

Example sample_page : extract Sample.self Sample.page [] = Some Sample.records.
Proof. vm_compute. reflexivity. Qed.

Example sample_page_repeat :
  extract Sample.self Sample.page_repeat [] = Some Sample.records_repeat.
Proof. vm_compute. reflexivity. Qed.

Lemma extract_ids_unique_first_wins_witness :
  NoDup (map student_id_full Sample.records_repeat) /\
  map student_id_full Sample.records_repeat =
    keep_first (map cand_id (id_candidates Sample.self Sample.page_repeat)) /\
  Forall (made_from Sample.self Sample.page_repeat []
            (id_candidates Sample.self Sample.page_repeat) ∅) Sample.records_repeat /\
  map student_id_full Sample.records_repeat =
    keep_first (omap (passing_id Sample.self) Sample.page_repeat) /\
  Forall (first_carrier Sample.self Sample.page_repeat []) Sample.records_repeat.
Proof.
  apply (extract_ids_unique_first_wins Sample.self Sample.page_repeat []
           Sample.records_repeat).
  vm_compute. reflexivity.
Defined.

Lemma candidate_iff_confidence_witness :
  ((Sample.w_id2_faint, {| m_start := 0; m_group1 := Sample.id2 |})
     ∈ id_candidates Sample.self Sample.page <->
   (confidence_threshold Sample.cfg <= rec_score Sample.w_id2_faint)%Q) /\
  Forall (fun r => (confidence_threshold Sample.cfg <= confidence r)%Q) Sample.records.
Proof.
  destruct (candidate_iff_confidence Sample.self Sample.page Sample.w_id2_faint
              {| m_start := 0; m_group1 := Sample.id2 |}) as [Hiff Hlow].
  - unfold Sample.page. rewrite !elem_of_cons. tauto.
  - vm_compute. reflexivity.
  - split; [exact Hiff|].
    assert (Hlt : (rec_score Sample.w_id2_faint < confidence_threshold Sample.cfg)%Q)
      by reflexivity.
    specialize (Hlow Hlt [] Sample.records sample_page).
    eapply Forall_impl; [exact Hlow|].
    intros r (? & ? & ? & _ & _ & _ & Hle). exact Hle.
Defined.

(** *** The name splitter *)

Lemma is_delim_space (c : char) : is_delim c = is_space c.
Proof.
  unfold is_delim. destruct (c =? IDEOGRAPHIC_SPACE) eqn:E.
  - apply N.eqb_eq in E. subst c. reflexivity.
  - apply orb_false_r.
Qed.

Lemma split_at_space c b cur t :
  is_delim c = true -> (b = true -> cur = []) ->
  List.filter truthy (re_split_ws b cur (c :: t)) =
    List.filter truthy [cur] ++ List.filter truthy (re_split_ws true [] t).
Proof.
  intros Hc Hb. rewrite is_delim_space in Hc. simpl. rewrite Hc.
  destruct b; [rewrite (Hb eq_refl); reflexivity|].
  simpl. destruct (truthy cur); reflexivity.
Qed.

Lemma split_at_char c b cur t :
  is_delim c = false ->
  re_split_ws b cur (c :: t) = re_split_ws false (cur ++ [c]) t.
Proof.
  intros Hc. unfold is_delim in Hc. apply orb_false_iff in Hc as [Hs Hi].
  simpl. rewrite Hs, Hi. reflexivity.
Qed.

Lemma split_run_irrelevant t :
  List.filter truthy (re_split_ws true [] t) =
  List.filter truthy (re_split_ws false [] t).
Proof.
  destruct t as [|c t]; [reflexivity|].
  simpl. destruct (is_space c); reflexivity.
Qed.

Lemma split_through_segment seg b cur t :
  Forall (fun c => is_delim c = false) seg -> seg <> [] ->
  re_split_ws b cur (seg ++ t) = re_split_ws false (cur ++ seg) t.
Proof.
  intros Hseg. revert b cur.
  induction Hseg as [|c seg Hc Hseg IH]; intros b cur Hne; [congruence|].
  simpl app. rewrite (split_at_char _ _ _ _ Hc).
  destruct seg as [|d seg].
  - reflexivity.
  - rewrite IH by discriminate. rewrite <- app_assoc. reflexivity.
Qed.

Lemma split_through_delims sep b t :
  Forall (fun c => is_delim c = true) sep ->
  List.filter truthy (re_split_ws b [] (sep ++ t)) =
  List.filter truthy (re_split_ws false [] t).
Proof.
  intros Hsep. revert b.
  induction Hsep as [|c sep Hc Hsep IH]; intros b; simpl app.
  - destruct b; [apply split_run_irrelevant|reflexivity].
  - rewrite (split_at_space _ _ _ _ Hc) by reflexivity. simpl. apply IH.
Qed.

(** The splitter followed by the removal of empty pieces yields the
    maximal delimiter-free runs. *)
Lemma split_ws_segments s segs :
  segments s segs -> List.filter truthy (split_ws s) = segs.
Proof.
  unfold split_ws. induction 1 as [sep Hsep|sep seg rest segs Hsep Hne Hseg Hhead _ IH].
  - rewrite <- (app_nil_r sep), split_through_delims by assumption. reflexivity.
  - rewrite split_through_delims by assumption.
    rewrite split_through_segment by assumption. simpl app.
    destruct rest as [|c rest].
    + simpl in IH. subst segs. destruct seg; [congruence|]. reflexivity.
    + assert (Hc : is_delim c = true).
      { simpl in Hhead. destruct (is_delim c); [reflexivity|congruence]. }
      rewrite split_at_space by (assumption || discriminate).
      rewrite split_at_space in IH by (assumption || reflexivity).
      simpl in IH. rewrite IH. destruct seg; [congruence|]. reflexivity.
Qed.

Lemma filter_truthy_nonempty (l : list pystr) :
  Forall (fun p => p <> []) (List.filter truthy l).
Proof.
  apply Forall_forall. intros p Hp.
  apply list_elem_of_In, filter_In in Hp as [_ Hp]. destruct p; [discriminate|congruence].
Qed.


(** *** [_parse_name] *)

Section ParseName.
Context `{RT : PyRuntime}.


Lemma segments_nonempty s seg segs : segments s (seg :: segs) -> truthy s = true.
Proof.
  inversion 1 as [|sep ? rest ? _ Hne _ _ _]; subst.
  destruct sep; simpl; [|reflexivity].
  destruct seg; [elim Hne|]; reflexivity.
Qed.


(** The surname and the given name come together or not at all. *)
Lemma parse_name_shape raw s n f :
  parse_name raw = (s, n, f) ->
  (s = [] /\ n = []) \/ (s <> [] /\ n <> [] /\ f = s ++ [SPACE] ++ n).
Proof.
  unfold parse_name.
  destruct (truthy (remove_parens (strip raw))); simpl; [|intros [= <- <- <-]; tauto].
  destruct (is_alpha _); [intros [= <- <- <-]; tauto|].
  pose proof (filter_truthy_nonempty (split_ws (remove_parens (strip raw)))) as Hne.
  destruct (List.filter truthy _) as [|p1 [|p2 ps]]; simpl;
    try (intros [= <- <- <-]; tauto).
  intros [= <- <- <-]. right.
  inversion Hne as [|? ? H1 Hne']; subst. inversion Hne' as [|? ? H2 _]; subst.
  repeat split; [assumption|].
  destruct p2; [congruence|discriminate].
Qed.

(** C8. A cleaned text that is not alphabetic and has two or more
    whitespace-separated segments parses into the first segment as surname,
    the other segments concatenated as given name, and the two joined by
    one space as full name. *)
Theorem parse_name_two_segments raw s1 s2 rest :
  is_alpha (remove_parens (strip raw)) = false ->
  segments (remove_parens (strip raw)) (s1 :: s2 :: rest) ->
  parse_name raw =
    (s1, concat (s2 :: rest), s1 ++ [SPACE] ++ concat (s2 :: rest)).
Proof.
  intros Halpha Hseg. unfold parse_name.
  rewrite (segments_nonempty _ _ _ Hseg), Halpha. simpl negb. cbv iota.
  rewrite (split_ws_segments _ _ Hseg). reflexivity.
Qed.




(** C10. In every record of the output the surname and the given name are
    both empty or both non-empty, and in the latter case the full name is
    the surname, one space, the given name. *)
Theorem names_both_or_neither self words file recs :
  extract self words file = Some recs ->
  Forall (fun r =>
            (surname r = [] /\ name r = []) \/
            (surname r <> [] /\ name r <> [] /\
             full_name r = surname r ++ [SPACE] ++ name r)) recs.
Proof.
  intros Hrun. apply Forall_forall. intros r Hr.
  destruct (build_records_origin _ _ _ _ _ _ _ Hrun r Hr)
    as [Hnil|(pre & w & m & post & raw & _ & _ & _ & _ & ->)];
    [inversion Hnil|].
  apply (parse_name_shape raw). symmetry. apply build_record_names.
Qed.

End ParseName.

(** The parser does not look at the runtime tables: one instance serves. *)
Example parse_yamada_taro :
  parse_name (Sample.yamada ++ [SPACE] ++ Sample.taro) =
    (Sample.yamada, Sample.taro, Sample.yamada ++ [SPACE] ++ Sample.taro).
Proof. reflexivity. Qed.

Example parse_ideographic_space :
  parse_name (Sample.yamada ++ [IDEOGRAPHIC_SPACE] ++ Sample.taro) =
    (Sample.yamada, Sample.taro, Sample.yamada ++ [SPACE] ++ Sample.taro).
Proof. reflexivity. Qed.

(** "Taro Yamada" *)
Example parse_alphabetic :
  parse_name [0x54; 0x61; 0x72; 0x6F; 0x20; 0x59; 0x61; 0x6D; 0x61; 0x64; 0x61] =
    ([], [], [0x54; 0x61; 0x72; 0x6F; 0x20; 0x59; 0x61; 0x6D; 0x61; 0x64; 0x61]).
Proof. reflexivity. Qed.

Example parse_single_segment :
  parse_name (Sample.yamada ++ Sample.taro) = ([], [], Sample.yamada ++ Sample.taro).
Proof. reflexivity. Qed.


Lemma parse_name_two_segments_witness :
  parse_name (Sample.yamada ++ [SPACE] ++ Sample.taro) =
    (Sample.yamada, concat [Sample.taro],
     Sample.yamada ++ [SPACE] ++ concat [Sample.taro]).
Proof.
  apply (parse_name_two_segments (Sample.yamada ++ [SPACE] ++ Sample.taro)
           Sample.yamada Sample.taro []).
  - reflexivity.
  - change (segments ([] ++ Sample.yamada ++ ([SPACE] ++ Sample.taro ++ []))
              [Sample.yamada; Sample.taro]).
    apply segments_seg; [constructor|discriminate|repeat constructor|discriminate|].
    apply segments_seg; [repeat constructor|discriminate|repeat constructor|discriminate|].
    apply segments_end. constructor.
Defined.

Example sample_page_two_words :
  extract Sample.self Sample.page_two_words [] = Some Sample.records_two_words.
Proof. vm_compute. reflexivity. Qed.

Lemma names_both_or_neither_witness :
  Forall (fun r =>
            (surname r = [] /\ name r = []) \/
            (surname r <> [] /\ name r <> [] /\
             full_name r = surname r ++ [SPACE] ++ name r)) Sample.records_two_words.
Proof.
  apply (names_both_or_neither Sample.self Sample.page_two_words [] Sample.records_two_words).
  vm_compute. reflexivity.
Defined.

(** *** Box geometry *)

Lemma aligned_iff (w_cy id_cy : Q) (id_height : Z) :
  aligned w_cy id_cy id_height = true <->
  (Qabs (w_cy - id_cy) < inject_Z id_height * (8 # 10))%Q.
Proof.
  unfold aligned, Qltb. rewrite negb_true_iff, <- not_true_iff_false, Qle_bool_iff.
  split; [apply Qnot_le_lt|apply Qlt_not_le].
Qed.

(** C6 (as the code has it). On a box of four points the vertical center
    is the mean of the y-values of the first and the third point and the
    height is the absolute difference of these two values; the left bound
    is the least x of the four points.  The first and the third point are
    opposite corners; on an axis-aligned rectangle their y-values are those
    of the left edge. *)
Theorem box_geometry_first_third (p0 p1 p2 p3 : Z * Z) :
  box_cy [p0; p1; p2; p3] = Some (inject_Z (snd p0 + snd p2) / 2)%Q /\
  box_height [p0; p1; p2; p3] = Some (Z.abs (snd p2 - snd p0)) /\
  min_x [p0; p1; p2; p3] =
    Some (Z.min (Z.min (Z.min (fst p0) (fst p1)) (fst p2)) (fst p3)) /\
  max_x [p0; p1; p2; p3] =
    Some (Z.max (Z.max (Z.max (fst p0) (fst p1)) (fst p2)) (fst p3)) /\
  (forall x0 x1 y0 y1 : Z,
     box_cy (rect x0 x1 y0 y1) = left_edge_cy (rect x0 x1 y0 y1) /\
     box_height (rect x0 x1 y0 y1) = left_edge_height (rect x0 x1 y0 y1)).
Proof. repeat split; reflexivity. Qed.

(** C6 (as worded) fails on a slanted box: the third point is the
    bottom-right corner, not the bottom-left one. *)
Lemma vertical_center_not_left_edge :
  length Sample.slanted = 4%nat /\
  ~ same_value (box_cy Sample.slanted) (left_edge_cy Sample.slanted) /\
  box_height Sample.slanted <> left_edge_height Sample.slanted.
Proof.
  split; [reflexivity|]. split.
  - vm_compute. discriminate.
  - vm_compute. discriminate.
Qed.

(** *** The candidates of the spatial search *)

Section SpatialSearch.
Context `{RT : PyRuntime}.

Lemma elem_of_left_candidates self id_word id_cy id_height id_left_x all_words cands :
  left_candidates self id_word id_cy id_height id_left_x all_words = Some cands ->
  forall word x,
    (word, x) ∈ cands <->
    word ∈ all_words /\
    word_eqb word id_word = false /\
    excluded self word = false /\
    looks_like_id self word = false /\
    exists w_cy,
      box_cy (points word) = Some w_cy /\
      max_x (points word) = Some x /\
      aligned w_cy id_cy id_height = true /\
      (x < id_left_x)%Z.
Proof.
  revert cands. induction all_words as [|w rest IH]; intros cands Hrun word x; simpl in Hrun.
  - inversion Hrun; subst. rewrite !elem_of_nil. tauto.
  - rewrite elem_of_cons.
    destruct (word_eqb w id_word) eqn:Heq;
      [rewrite (IH _ Hrun); split; [tauto|intros ([->|?] & ?); [|tauto]; intuition congruence]|].
    destruct (excluded self w) eqn:Hex;
      [rewrite (IH _ Hrun); split; [tauto|intros ([->|?] & ?); [|tauto]; intuition congruence]|].
    destruct (looks_like_id self w) eqn:Hid;
      [rewrite (IH _ Hrun); split; [tauto|intros ([->|?] & ?); [|tauto]; intuition congruence]|].
    destruct (box_cy (points w)) as [w_cy|] eqn:Hcy; [|discriminate].
    destruct (max_x (points w)) as [w_right_x|] eqn:Hmax; [|discriminate].
    destruct (left_candidates _ _ _ _ _ rest) as [tl|] eqn:Htl; [|discriminate].
    simpl in Hrun. specialize (IH tl eq_refl word x).
    destruct (aligned w_cy id_cy id_height && (w_right_x <? id_left_x)%Z) eqn:Hkeep;
      inversion Hrun; subst; clear Hrun.
    + apply andb_true_iff in Hkeep as [Hal Hlt]. apply Z.ltb_lt in Hlt.
      rewrite elem_of_cons, IH. split.
      * intros [[= -> ->]|?]; [|tauto].
        repeat split; try assumption; [left; reflexivity|]. exists w_cy. tauto.
      * intros ([->|?] & Hrest); [left|right; tauto].
        destruct Hrest as (_ & _ & _ & w_cy' & _ & Hmax' & _). congruence.
    + rewrite IH. split; [tauto|].
      intros ([->|?] & Hrest); [exfalso|tauto].
      destruct Hrest as (_ & _ & _ & w_cy' & Hcy' & Hmax' & Hal & Hlt).
      rewrite Hcy in Hcy'. rewrite Hmax in Hmax'. inversion Hcy'; inversion Hmax'; subst.
      apply Z.ltb_lt in Hlt. rewrite Hal, Hlt in Hkeep. discriminate.
Qed.

(** C4. A word that is not the identifier word, does not match the
    exclusion pattern and does not contain the prefix is a candidate
    exactly when its vertical center lies within 0.8 box heights of the
    identifier's and its rightmost x lies strictly left of the identifier's
    leftmost x. *)
Theorem left_candidate_iff self id_word all_words id_cy id_height id_left_x
    cands word w_cy w_right_x :
  box_cy (points id_word) = Some id_cy ->
  box_height (points id_word) = Some id_height ->
  min_x (points id_word) = Some id_left_x ->
  left_candidates self id_word id_cy id_height id_left_x all_words = Some cands ->
  word ∈ all_words ->
  word_eqb word id_word = false ->
  excluded self word = false ->
  contains (student_id_prefix (config self)) (content word) = false ->
  box_cy (points word) = Some w_cy ->
  max_x (points word) = Some w_right_x ->
  ((word, w_right_x) ∈ cands <->
   (Qabs (w_cy - id_cy) < inject_Z id_height * (8 # 10))%Q /\
   (w_right_x < id_left_x)%Z).
Proof.
  intros _ _ _ Hrun Hin Hne Hex Hpre Hcy Hmax.
  rewrite (elem_of_left_candidates _ _ _ _ _ _ _ Hrun), <- aligned_iff.
  assert (Hid : looks_like_id self word = false).
  { unfold looks_like_id. rewrite Hpre. apply andb_false_r. }
  split.
  - intros (_ & _ & _ & _ & w_cy' & Hcy' & _ & Hal & Hlt).
    rewrite Hcy in Hcy'. inversion Hcy'; subst. tauto.
  - intros [Hal Hlt]. repeat split; try assumption. exists w_cy. tauto.
Qed.

End SpatialSearch.

Lemma left_candidate_iff_witness :
  (Sample.w_name, 50%Z) ∈ [(Sample.w_name, 50%Z)] <->
  (Qabs (inject_Z (100 + 120) / 2 - inject_Z (100 + 120) / 2) < inject_Z 20 * (8 # 10))%Q /\
  (50 < 120)%Z.
Proof.
  apply (left_candidate_iff Sample.self Sample.w_id2 Sample.page
           (inject_Z (100 + 120) / 2)%Q 20%Z 120%Z [(Sample.w_name, 50%Z)]
           Sample.w_name (inject_Z (100 + 120) / 2)%Q 50%Z);
    try (vm_compute; reflexivity).
  unfold Sample.page. rewrite !elem_of_cons. tauto.
Defined.

(** The spatial form: the name left of the identifier on the same line. *)
Example spatial_form :
  find_name_at_left Sample.self Sample.w_id2 Sample.page = Some Sample.yamada.
Proof. vm_compute. reflexivity. Qed.

(** *** Ordering and accumulation *)

Lemma insert_desc_perm c l : Permutation (insert_desc c l) (c :: l).
Proof.
  induction l as [|d l IH]; simpl; [reflexivity|].
  destruct (snd d <=? snd c)%Z; [reflexivity|].
  rewrite IH. apply perm_swap.
Qed.

Lemma sort_desc_perm l : Permutation (sort_desc l) l.
Proof.
  induction l as [|c l IH]; simpl; [reflexivity|].
  rewrite insert_desc_perm, IH. reflexivity.
Qed.

Lemma insert_desc_sorted c l :
  StronglySorted further_left l -> StronglySorted further_left (insert_desc c l).
Proof.
  induction 1 as [|d l Hs IH Hd]; simpl; [repeat constructor|].
  destruct (snd d <=? snd c)%Z eqn:Hle.
  - apply Z.leb_le in Hle. constructor; [constructor; assumption|].
    constructor; [exact Hle|].
    eapply Forall_impl; [exact Hd|]. unfold further_left. intros; lia.
  - apply Z.leb_gt in Hle. constructor; [exact IH|].
    rewrite insert_desc_perm. constructor; [unfold further_left; lia|exact Hd].
Qed.

Lemma sort_desc_sorted l : StronglySorted further_left (sort_desc l).
Proof.
  induction l as [|c l IH]; simpl; [constructor|].
  apply insert_desc_sorted, IH.
Qed.

(** X18. The sort is stable: words of equal right edge keep their scan
    order. *)
Lemma sort_desc_stable l k :
  List.filter (fun c => (snd c =? k)%Z) (sort_desc l) =
  List.filter (fun c => (snd c =? k)%Z) l.
Proof.
  induction l as [|c l IH]; simpl; [reflexivity|].
  rewrite <- IH. clear IH. induction (sort_desc l) as [|d s IHs]; simpl; [reflexivity|].
  destruct (snd d <=? snd c)%Z eqn:Hle; simpl; [reflexivity|].
  apply Z.leb_gt in Hle. rewrite IHs. simpl.
  destruct (snd c =? k)%Z eqn:Hc, (snd d =? k)%Z eqn:Hd; try reflexivity.
  apply Z.eqb_eq in Hc, Hd. lia.
Qed.

(** The loop from an empty accumulator, written out: at most two words
    are ever taken. *)
Lemma accumulate_unfold h lx cands :
  accumulate h lx [] cands =
  match cands with
  | [] => Some []
  | (w1, x1) :: rest =>
      if (h * 5 <? lx - x1)%Z then Some []
      else
        l1 ← min_x (points w1);
        match rest with
        | [] => Some [content w1]
        | (w2, x2) :: _ =>
            if (h * 5 <? l1 - x2)%Z then Some [content w1]
            else _ ← min_x (points w2); Some [content w2; content w1]
        end
  end.
Proof.
  destruct cands as [|[w1 x1] rest]; [reflexivity|]. simpl.
  destruct (h * 5 <? lx - x1)%Z; [reflexivity|].
  destruct (min_x (points w1)) as [l1|]; [|reflexivity]. simpl.
  destruct rest as [|[w2 x2] rest]; [reflexivity|]. simpl.
  destruct (h * 5 <? l1 - x2)%Z; [reflexivity|].
  destruct (min_x (points w2)); reflexivity.
Qed.

Lemma accumulate_length h lx cands parts :
  accumulate h lx [] cands = Some parts -> (length parts <= 2)%nat.
Proof.
  rewrite accumulate_unfold.
  destruct cands as [|[w1 x1] rest]; [intros [= <-]; simpl; lia|].
  destruct (h * 5 <? lx - x1)%Z; [intros [= <-]; simpl; lia|].
  destruct (min_x (points w1)) as [l1|]; [|discriminate]. simpl.
  destruct rest as [|[w2 x2] rest]; [intros [= <-]; simpl; lia|].
  destruct (h * 5 <? l1 - x2)%Z; [intros [= <-]; simpl; lia|].
  destruct (min_x (points w2)); [|discriminate]. intros [= <-]. simpl. lia.
Qed.

Section Accumulation.
Context `{RT : PyRuntime}.

Lemma find_name_at_left_unfold self id_word all_words id_cy h lx cands :
  box_cy (points id_word) = Some id_cy ->
  box_height (points id_word) = Some h ->
  min_x (points id_word) = Some lx ->
  left_candidates self id_word id_cy h lx all_words = Some cands ->
  find_name_at_left self id_word all_words =
    join [SPACE] <$> accumulate h lx [] (sort_desc cands).
Proof.
  intros Hcy Hh Hlx Hc. unfold find_name_at_left.
  rewrite Hcy, Hh, Hlx. simpl. rewrite Hc. simpl.
  destruct (accumulate _ _ _ _); reflexivity.
Qed.

(** C5. The candidates are taken by decreasing right edge.  From the
    identifier's left edge as boundary, a candidate whose right edge lies
    more than five box heights left of the boundary ends the accumulation
    and nothing further is taken; otherwise its content is put in front,
    its own left edge becomes the boundary, and the accumulation ends once
    two words are taken. *)
Theorem greedy_accumulation self id_word all_words id_cy h lx cands :
  box_cy (points id_word) = Some id_cy ->
  box_height (points id_word) = Some h ->
  min_x (points id_word) = Some lx ->
  left_candidates self id_word id_cy h lx all_words = Some cands ->
  Permutation (sort_desc cands) cands /\
  StronglySorted further_left (sort_desc cands) /\
  (forall raw_name, find_name_at_left self id_word all_words = Some raw_name ->
     exists parts, raw_name = join [SPACE] parts /\ (length parts <= 2)%nat) /\
  (sort_desc cands = [] -> find_name_at_left self id_word all_words = Some []) /\
  (forall w1 x1 rest,
     sort_desc cands = (w1, x1) :: rest -> (h * 5 < lx - x1)%Z ->
     find_name_at_left self id_word all_words = Some []) /\
  (forall w1 x1 l1,
     sort_desc cands = [(w1, x1)] -> (lx - x1 <= h * 5)%Z ->
     min_x (points w1) = Some l1 ->
     find_name_at_left self id_word all_words = Some (content w1)) /\
  (forall w1 x1 l1 w2 x2 rest,
     sort_desc cands = (w1, x1) :: (w2, x2) :: rest -> (lx - x1 <= h * 5)%Z ->
     min_x (points w1) = Some l1 ->
     ((h * 5 < l1 - x2)%Z ->
      find_name_at_left self id_word all_words = Some (content w1)) /\
     ((l1 - x2 <= h * 5)%Z -> is_Some (min_x (points w2)) ->
      find_name_at_left self id_word all_words =
        Some (content w2 ++ [SPACE] ++ content w1))).
Proof.
  intros Hcy Hh Hlx Hc.
  rewrite (find_name_at_left_unfold _ _ _ _ _ _ _ Hcy Hh Hlx Hc).
  split; [apply sort_desc_perm|]. split; [apply sort_desc_sorted|].
  split; [|rewrite accumulate_unfold; split; [|split; [|split]]].
  - intros raw. destruct (accumulate _ _ _ _) as [parts|] eqn:Hacc; [|discriminate].
    intros [= <-]. exists parts. split; [reflexivity|].
    exact (accumulate_length _ _ _ _ Hacc).
  - intros ->. reflexivity.
  - intros w1 x1 rest -> Hfar. apply Z.ltb_lt in Hfar. rewrite Hfar. reflexivity.
  - intros w1 x1 l1 -> Hnear Hl1. apply Z.ltb_ge in Hnear.
    rewrite Hnear, Hl1. reflexivity.
  - intros w1 x1 l1 w2 x2 rest -> Hnear1 Hl1. apply Z.ltb_ge in Hnear1.
    rewrite Hnear1, Hl1. simpl. split.
    + intros Hfar. apply Z.ltb_lt in Hfar. rewrite Hfar. reflexivity.
    + intros Hnear [l2 Hl2]. apply Z.ltb_ge in Hnear.
      rewrite Hnear, Hl2. reflexivity.
Qed.

End Accumulation.

Example far_word_left_out :
  find_name_at_left Sample.self Sample.w_id2 [Sample.w_far; Sample.w_id2] = Some [].
Proof. vm_compute. reflexivity. Qed.

Lemma greedy_accumulation_witness :
  find_name_at_left Sample.self Sample.w_id2 Sample.page_two_words =
    Some (Sample.yamada ++ [SPACE] ++ Sample.taro).
Proof.
  assert (Hcands :
    left_candidates Sample.self Sample.w_id2 (inject_Z (100 + 120) / 2)%Q 20%Z 120%Z
      Sample.page_two_words =
    Some [(Sample.w_far, 10%Z); (Sample.w_name, 50%Z); (Sample.w_given, 110%Z)])
    by (vm_compute; reflexivity).
  destruct (greedy_accumulation Sample.self Sample.w_id2 Sample.page_two_words
              _ _ _ _ eq_refl eq_refl eq_refl Hcands)
    as (_ & _ & _ & _ & _ & _ & Htwo).
  assert (Hnear1 : (120 - 110 <= 20 * 5)%Z) by (vm_compute; discriminate).
  assert (Hnear2 : (60 - 50 <= 20 * 5)%Z) by (vm_compute; discriminate).
  refine (proj2 (Htwo Sample.w_given 110%Z 60%Z Sample.w_name 50%Z
                   [(Sample.w_far, 10%Z)] _ Hnear1 _) Hnear2 _).
  - vm_compute. reflexivity.
  - reflexivity.
  - exists 0%Z. reflexivity.
Defined.

(** *** Trimming *)

Lemma drop_while_split f s :
  s = take_while f s ++ drop_while f s /\
  Forall (fun c => f c = true) (take_while f s) /\
  (f <$> head (drop_while f s)) <> Some true.
Proof.
  induction s as [|c s (Hs & Hall & Hhd)]; simpl; [repeat split; [constructor|discriminate]|].
  destruct (f c) eqn:Hc; simpl.
  - repeat split; [congruence|constructor; assumption|assumption].
  - repeat split; [constructor|]. rewrite Hc. discriminate.
Qed.

Lemma last_rev {A} (l : list A) : last (rev l) = head l.
Proof. destruct l as [|a l]; [reflexivity|]. simpl. apply last_snoc. Qed.

(** [strip] removes a run of whitespace at each end and leaves none there. *)
Lemma strip_spec s :
  exists l r,
    s = l ++ strip s ++ r /\
    Forall (fun c => is_space c = true) l /\
    Forall (fun c => is_space c = true) r /\
    (is_space <$> head (strip s)) <> Some true /\
    (is_space <$> last (strip s)) <> Some true.
Proof.
  unfold strip, rstrip, lstrip.
  destruct (drop_while_split is_space s) as (Hs & Hl & Hhd).
  destruct (drop_while_split is_space (rev (drop_while is_space s))) as (Hr & Hrs & Hlast).
  set (d := drop_while is_space s) in *.
  set (k := drop_while is_space (rev d)) in *.
  assert (Hd : d = rev k ++ rev (take_while is_space (rev d))).
  { rewrite <- rev_app_distr, <- Hr, rev_involutive. reflexivity. }
  exists (take_while is_space s), (rev (take_while is_space (rev d))).
  split; [rewrite <- Hd; exact Hs|]. split; [exact Hl|].
  split; [apply Forall_rev; exact Hrs|]. split.
  - destruct (rev k) as [|c k'] eqn:Hk; [discriminate|].
    rewrite Hd in Hhd. exact Hhd.
  - rewrite last_rev. exact Hlast.
Qed.

Lemma endswith_lparen_rev s :
  endswith_lparen s = match rev s with c :: _ => c =? LPAREN | [] => false end.
Proof.
  unfold endswith_lparen. rewrite <- (rev_involutive s) at 1.
  rewrite last_rev. destruct (rev s); reflexivity.
Qed.

Lemma drop_last_rev s : drop_last s = rev (tail (rev s)).
Proof.
  unfold drop_last. rewrite <- (rev_involutive s) at 1.
  destruct (rev s) as [|c body]; [reflexivity|].
  simpl. apply removelast_last.
Qed.

(** The embedded check of the source is the trimming the design text
    describes, followed by the test for emptiness. *)
Lemma embedded_check_spec pre :
  embedded_check pre =
    if truthy (trailing_paren_trimmed pre)
    then Embedded (trailing_paren_trimmed pre) else SpatialSearch.
Proof.
  unfold embedded_check, trailing_paren_trimmed.
  rewrite endswith_lparen_rev, drop_last_rev.
  destruct (rev (strip pre)) as [|c body] eqn:Hrev.
  - apply (f_equal (@rev _)) in Hrev. rewrite rev_involutive in Hrev.
    simpl in Hrev. rewrite Hrev. reflexivity.
  - assert (Hne : truthy (strip pre) = true).
    { destruct (strip pre); [discriminate|reflexivity]. }
    rewrite Hne. simpl. destruct (c =? LPAREN); reflexivity.
Qed.

Lemma embedded_check_nonempty pre raw :
  embedded_check pre = Embedded raw -> raw <> [].
Proof.
  rewrite embedded_check_spec.
  destruct (trailing_paren_trimmed pre) eqn:Ht; simpl; [discriminate|].
  intros [= <-]. discriminate.
Qed.

(** The answer of the embedded check has the shape described without the
    trimming functions. *)
Lemma embedded_check_shape pre : embedded_shape pre (embedded_check pre).
Proof.
  rewrite embedded_check_spec. unfold trailing_paren_trimmed, embedded_shape, blank.
  destruct (strip_spec pre) as (l & r & Hpre & Hl & Hr & Hhd & Hlast).
  destruct (rev (strip pre)) as [|c body] eqn:Hrev.
  - assert (Hcore : strip pre = []).
    { rewrite <- (rev_involutive (strip pre)), Hrev. reflexivity. }
    simpl. left. rewrite Hpre, Hcore. simpl. apply Forall_app. tauto.
  - assert (Hcore : strip pre = rev body ++ [c]).
    { rewrite <- (rev_involutive (strip pre)), Hrev. reflexivity. }
    destruct (c =? LPAREN) eqn:Hc.
    + apply N.eqb_eq in Hc. subst c.
      destruct (strip_spec (rev body)) as (l' & r' & Hbody & Hl' & Hr' & Hhd' & Hlast').
      destruct (strip (rev body)) as [|a core] eqn:Hs; simpl.
      * right. exists (l ++ l' ++ r'), r.
        split; [|split; [|exact Hr]].
        -- rewrite Hpre, Hcore, Hbody. simpl. rewrite <- !app_assoc. reflexivity.
        -- repeat (apply Forall_app; split); assumption.
      * exists (l ++ l'), (r' ++ LPAREN :: r).
        split; [|split; [|split; [|split; [|split]]]].
        -- rewrite Hpre, Hcore, Hbody, <- !app_assoc. reflexivity.
        -- apply Forall_app. tauto.
        -- discriminate.
        -- exact Hhd'.
        -- exact Hlast'.
        -- right. exists r', r. tauto.
    + assert (Hne : strip pre <> []) by (rewrite Hcore; destruct (rev body); discriminate).
      destruct (strip pre) as [|a core] eqn:Hs; [congruence|]. simpl.
      exists l, r. split; [exact Hpre|]. split; [exact Hl|].
      split; [discriminate|]. split; [exact Hhd|]. split; [exact Hlast|].
      left. split; [exact Hr|].
      rewrite Hcore, last_snoc. intros [= ->]. rewrite N.eqb_refl in Hc. discriminate.
Qed.

(** *** The embedded form *)

Section EmbeddedForm.
Context `{RT : PyRuntime}.

(** C3. The text before the match is trimmed, loses one trailing opening
    parenthesis and is trimmed again; when something is left it is the raw
    name, whatever the other words and their boxes are, and the spatial
    search is consulted only when nothing is left.  On a runtime whose
    decimal digits below U+0080 are the ASCII ones, the word
    "山田太郎(px-0000001)" with prefix "px-" gives the raw name "山田太郎" and
    the digits "0000001".  The trimming is pinned without the trimming
    functions: the raw name is a stretch of the text with no whitespace at
    either end, only whitespace before it, and after it whitespace with at
    most the one opening parenthesis; " 山田 太郎　( px-0000001)" gives
    "山田 太郎". *)
Theorem embedded_name_skips_search self word m words :
  (forall c, c < 0x80 -> is_decimal c = Fragment.is_ascii_digit c) ->
  embedded_check (take (m_start m) (content word)) =
    (if truthy (trailing_paren_trimmed (take (m_start m) (content word)))
     then Embedded (trailing_paren_trimmed (take (m_start m) (content word)))
     else SpatialSearch) /\
  (trailing_paren_trimmed (take (m_start m) (content word)) <> [] ->
   forall self' words',
     locate_name self' word m words' =
       Some (trailing_paren_trimmed (take (m_start m) (content word)))) /\
  (trailing_paren_trimmed (take (m_start m) (content word)) = [] ->
   locate_name self word m words = find_name_at_left self word words) /\
  id_search Sample.px Sample.embedded_text =
    Some {| m_start := 5; m_group1 := Sample.id1 |} /\
  trailing_paren_trimmed (take 5 Sample.embedded_text) = Sample.yamada ++ Sample.taro /\
  digits_only Sample.id1 = drop 3 Sample.id1 /\
  (forall self' box score words',
     locate_name self' (Sample.word box Sample.embedded_text score)
       {| m_start := 5; m_group1 := Sample.id1 |} words' =
     Some (Sample.yamada ++ Sample.taro)) /\
  embedded_shape (take (m_start m) (content word))
    (embedded_check (take (m_start m) (content word))) /\
  id_search Sample.px Sample.spaced_text =
    Some {| m_start := 9; m_group1 := Sample.id1 |} /\
  embedded_check (take 9 Sample.spaced_text) =
    Embedded (Sample.yamada ++ [SPACE] ++ Sample.taro) /\
  (forall self' box score words',
     locate_name self' (Sample.word box Sample.spaced_text score)
       {| m_start := 9; m_group1 := Sample.id1 |} words' =
     Some (Sample.yamada ++ [SPACE] ++ Sample.taro)).
Proof.
  intros Hascii.
  assert (H0 : is_decimal 0x30 = true) by (rewrite Hascii; reflexivity).
  assert (H1 : is_decimal 0x31 = true) by (rewrite Hascii; reflexivity).
  assert (Hrp : is_decimal RPAREN = false) by (rewrite Hascii; reflexivity).
  assert (Hp : is_decimal 0x70 = false) by (rewrite Hascii; reflexivity).
  assert (Hx : is_decimal 0x78 = false) by (rewrite Hascii; reflexivity).
  assert (Hm : is_decimal 0x2D = false) by (rewrite Hascii; reflexivity).
  split; [apply embedded_check_spec|].
  split; [|split; [|split; [|split; [|split; [|split; [|split; [|split; [|split]]]]]]]].
  - intros Hne self' words'. unfold locate_name. rewrite embedded_check_spec.
    destruct (trailing_paren_trimmed _); [congruence|reflexivity].
  - intros Hnil. unfold locate_name. rewrite embedded_check_spec, Hnil. reflexivity.
  - unfold id_search. simpl. unfold id_match_here. simpl.
    rewrite !H0, H1, Hrp. reflexivity.
  - reflexivity.
  - unfold digits_only. simpl. rewrite Hp, Hx, Hm, !H0, H1. reflexivity.
  - intros self' box score words'. reflexivity.
  - apply embedded_check_shape.
  - unfold id_search. simpl. unfold id_match_here. simpl.
    rewrite !H0, H1, Hrp. reflexivity.
  - reflexivity.
  - intros self' box score words'. reflexivity.
Qed.

End EmbeddedForm.

Lemma embedded_name_skips_search_witness :
  locate_name Sample.self Sample.w_embedded_short
    {| m_start := 5; m_group1 := Sample.id1 |} [Sample.w_embedded_short] =
    Some (Sample.yamada ++ Sample.taro) /\
  find_name_at_left Sample.self Sample.w_embedded_short [Sample.w_embedded_short] = None /\
  locate_name Sample.self Sample.w_spaced_short
    {| m_start := 9; m_group1 := Sample.id1 |} [Sample.w_spaced_short] =
    Some (Sample.yamada ++ [SPACE] ++ Sample.taro) /\
  embedded_shape (take 9 Sample.spaced_text)
    (Embedded (Sample.yamada ++ [SPACE] ++ Sample.taro)) /\
  find_name_at_left Sample.self Sample.w_spaced_short [Sample.w_spaced_short] = None.
Proof.
  assert (Hascii : forall c, c < 0x80 ->
            is_decimal (PyRuntime := Fragment.runtime) c = Fragment.is_ascii_digit c)
    by (intros c _; reflexivity).
  destruct (embedded_name_skips_search Sample.self Sample.w_spaced_short
              {| m_start := 9; m_group1 := Sample.id1 |}
              [Sample.w_spaced_short] Hascii)
    as (_ & Hraw & _ & _ & _ & _ & Hplain & Hshape & _ & _ & _).
  split; [apply Hplain|]. split; [reflexivity|].
  split; [apply Hraw; vm_compute; discriminate|].
  split; [exact Hshape|reflexivity].
Defined.

(** One word holding name and identifier, on a box too short for the
    spatial search: the record is produced all the same. *)
Example embedded_form :
  extract Sample.self [Sample.w_embedded_short] [] =
    Some [Sample.record Sample.id1 [] [] (Sample.yamada ++ Sample.taro) (9 # 10)].
Proof. vm_compute. reflexivity. Qed.

(** *** Construction and the empty prefix *)

Section Construction.
Context `{RT : PyRuntime}.

Lemma id_search_empty_prefix s pos :
  is_Some (id_search_from [] pos s) <-> Exists (fun c => is_decimal c = true) s.
Proof.
  revert pos. induction s as [|c s IH]; intros pos.
  - simpl. split; [intros [? [=]]|inversion 1].
  - simpl. unfold id_match_here. simpl. destruct (is_decimal c) eqn:Hc.
    + split; [intros _; left; exact Hc|intros _; eexists; reflexivity].
    + simpl. rewrite IH. split; [intros ?; right; assumption|].
      inversion 1; subst; [congruence|assumption].
Qed.

(** C7 (as the code has it). Construction fails only when a configured
    pattern does not compile; the prefix is not looked at.  With an empty
    prefix extraction runs on the search pattern of one or more digits: a
    word is a candidate exactly when it passes the threshold and holds a
    decimal digit, and the spatial search discards no word for containing
    the prefix. *)
Theorem empty_prefix_not_rejected cfg :
  (Extractor_init cfg = None <->
     re_compile (student_id_pattern cfg) = None \/
     exists p, name_exclusion_pattern cfg = Some p /\ p <> [] /\ re_compile p = None) /\
  (forall self, Extractor_init cfg = Some self -> config self = cfg) /\
  (forall self words word,
     student_id_prefix (config self) = [] ->
     ((exists m, (word, m) ∈ id_candidates self words) <->
        word ∈ words /\
        (confidence_threshold (config self) <= rec_score word)%Q /\
        Exists (fun c => is_decimal c = true) (content word)) /\
     looks_like_id self word = false).
Proof.
  split; [|split].
  - unfold Extractor_init.
    destruct (re_compile (student_id_pattern cfg)) as [idp|]; simpl;
      [|split; [intros _; left; reflexivity|reflexivity]].
    destruct (name_exclusion_pattern cfg) as [[|c p]|]; simpl.
    + split; [discriminate|]. intros [[=]|(p & [= <-] & Hne & _)]. congruence.
    + destruct (re_compile (c :: p)) as [excl|] eqn:Hc; simpl.
      * split; [discriminate|]. intros [[=]|(p' & [= <-] & _ & Hnone)]. congruence.
      * split; [|reflexivity]. intros _. right. exists (c :: p).
        repeat split; [discriminate|exact Hc].
    + split; [discriminate|]. intros [[=]|(p & [=] & _)].
  - unfold Extractor_init. intros self Hinit.
    destruct (re_compile (student_id_pattern cfg)); simpl in Hinit; [|discriminate].
    destruct (match name_exclusion_pattern cfg with
              | Some p => if truthy p then Some <$> re_compile p else Some None
              | None => Some None end); simpl in Hinit; [|discriminate].
    inversion Hinit; subst. reflexivity.
  - intros self words word Hprefix. split.
    + split.
      * intros [m Hm]. apply elem_of_id_candidates in Hm as (Hin & Hs & Hle).
        repeat split; try assumption.
        rewrite Hprefix in Hs. apply (id_search_empty_prefix _ 0%nat).
        unfold id_search in Hs. rewrite Hs. eexists; reflexivity.
      * intros (Hin & Hle & Hdigit).
        apply (id_search_empty_prefix _ 0%nat) in Hdigit as [m Hm].
        exists m. apply elem_of_id_candidates. rewrite Hprefix. tauto.
    + unfold looks_like_id. rewrite Hprefix. reflexivity.
Qed.

End Construction.

(** C7 (as worded) fails: the defaults of the schema, with their empty
    prefix and empty identifier pattern, build an extractor, and the
    extraction reads a bare number as an identifier. *)
Lemma empty_configuration_runs :
  student_id_prefix default_config = [] /\
  student_id_pattern default_config = [] /\
  exists self : @Extractor Fragment.runtime,
    Extractor_init default_config = Some self /\
    extract self [Sample.w_number] [] =
      Some [{| student_id_full := [0x34; 0x32];
               student_id_num := [0x34; 0x32];
               surname := []; name := []; full_name := [];
               confidence := (9 # 10)%Q;
               file_name := Some [] |}].
Proof.
  split; [reflexivity|]. split; [reflexivity|].
  eexists. split; [reflexivity|]. vm_compute. reflexivity.
Qed.

(** *** Extraction returns on well-formed boxes *)

Section Totality.
Context `{RT : PyRuntime}.

Lemma well_formed_geometry w :
  well_formed w ->
  is_Some (box_cy (points w)) /\ is_Some (box_height (points w)) /\
  is_Some (min_x (points w)) /\ is_Some (max_x (points w)).
Proof.
  unfold well_formed. destruct (points w) as [|p0 [|p1 [|p2 [|p3 [|]]]]];
    try discriminate.
  intros _. repeat split; eexists; reflexivity.
Qed.

Lemma left_candidates_total self id_word id_cy h lx all_words :
  Forall well_formed all_words ->
  exists cands,
    left_candidates self id_word id_cy h lx all_words = Some cands /\
    Forall (fun c => well_formed (fst c)) cands.
Proof.
  induction 1 as [|w rest Hw _ (tl & Htl & Hall)]; simpl.
  - exists []. split; [reflexivity|constructor].
  - destruct (word_eqb w id_word); [exists tl; tauto|].
    destruct (excluded self w); [exists tl; tauto|].
    destruct (looks_like_id self w); [exists tl; tauto|].
    destruct (well_formed_geometry w Hw) as ([cy Hcy] & _ & _ & [mx Hmx]).
    rewrite Hcy, Hmx, Htl. simpl.
    destruct (aligned cy id_cy h && (mx <? lx)%Z).
    + eexists. split; [reflexivity|]. constructor; assumption.
    + exists tl. tauto.
Qed.

Lemma accumulate_total h lx parts cands :
  Forall (fun c => well_formed (fst c)) cands ->
  is_Some (accumulate h lx parts cands).
Proof.
  intros Hall. revert lx parts.
  induction Hall as [|[w x] rest Hw _ IH]; intros lx parts; simpl.
  - eexists; reflexivity.
  - destruct (h * 5 <? lx - x)%Z; [eexists; reflexivity|].
    destruct (well_formed_geometry w Hw) as (_ & _ & [l Hl] & _).
    rewrite Hl. simpl. destruct parts; [apply IH|eexists; reflexivity].
Qed.

Lemma find_name_at_left_total self id_word all_words :
  well_formed id_word -> Forall well_formed all_words ->
  is_Some (find_name_at_left self id_word all_words).
Proof.
  intros Hid Hall. unfold find_name_at_left.
  destruct (well_formed_geometry id_word Hid) as ([cy ->] & [h ->] & [lx ->] & _).
  simpl.
  destruct (left_candidates_total self id_word cy h lx all_words Hall)
    as (cands & -> & Hc).
  simpl.
  destruct (accumulate_total h lx [] (sort_desc cands)) as [parts ->].
  - rewrite sort_desc_perm. exact Hc.
  - eexists; reflexivity.
Qed.

Lemma id_candidates_words self words c :
  c ∈ id_candidates self words -> fst c ∈ words.
Proof.
  destruct c as [w m]. rewrite elem_of_id_candidates. tauto.
Qed.

Lemma build_records_total self words file seen students cands :
  Forall well_formed words ->
  Forall (fun c => well_formed (fst c)) cands ->
  is_Some (build_records self words file seen students cands).
Proof.
  intros Hwords Hall. revert seen students.
  induction Hall as [|[w m] rest Hw _ IH]; intros seen students; simpl.
  - eexists; reflexivity.
  - destruct (decide (m_group1 m ∈ seen)); [apply IH|].
    assert (Hloc : is_Some (locate_name self w m words)).
    { unfold locate_name. destruct (embedded_check _); [eexists; reflexivity|].
      apply find_name_at_left_total; assumption. }
    destruct Hloc as [raw ->]. simpl. apply IH.
Qed.

(** X19. When every box has its four points, [extract] returns a list:
    it raises on no such page. *)
Lemma extract_total self words file :
  Forall well_formed words -> is_Some (extract self words file).
Proof.
  intros Hwords. apply build_records_total; [exact Hwords|].
  apply Forall_forall. intros c Hc.
  apply id_candidates_words in Hc.
  rewrite Forall_forall in Hwords. apply Hwords, Hc.
Qed.

End Totality.

(** *** Every text has its segments *)

Lemma drop_while_length f s : (length (drop_while f s) <= length s)%nat.
Proof.
  induction s as [|c s IH]; simpl; [lia|]. destruct (f c); simpl; lia.
Qed.

Lemma segments_exist s : exists segs, segments s segs.
Proof.
  remember (length s) as n eqn:Hn. revert s Hn.
  induction n as [n IH] using lt_wf_ind. intros s ->.
  destruct (drop_while_split is_delim s) as (Hs & Hsep & Hhd).
  destruct (drop_while is_delim s) as [|c rest] eqn:Hrest.
  - exists []. apply segments_end. rewrite Hs, app_nil_r. exact Hsep.
  - assert (Hc : is_delim c = false).
    { simpl in Hhd. destruct (is_delim c); [congruence|reflexivity]. }
    set (word_char := fun c => negb (is_delim c)).
    destruct (drop_while_split word_char (c :: rest)) as (Hw & Hseg & Hnext).
    assert (Hseg_ne : take_while word_char (c :: rest) <> []).
    { simpl. unfold word_char at 1. rewrite Hc. discriminate. }
    destruct (IH (length (drop_while word_char (c :: rest)))) with
      (s := drop_while word_char (c :: rest)) as [segs Hsegs]; [|reflexivity|].
    + pose proof (drop_while_length is_delim s) as Hl1. rewrite Hrest in Hl1.
      simpl. unfold word_char at 1. rewrite Hc. simpl in Hl1.
      pose proof (drop_while_length word_char rest). simpl. lia.
    + exists (take_while word_char (c :: rest) :: segs).
      remember (take_while is_delim s) as sep.
      remember (take_while word_char (c :: rest)) as seg.
      remember (drop_while word_char (c :: rest)) as tl.
      rewrite Hs, Hw. apply segments_seg; try assumption.
      * eapply Forall_impl; [exact Hseg|]. unfold word_char.
        intros a Ha. apply negb_true_iff, Ha.
      * destruct tl as [|d ?]; [discriminate|].
        simpl in *. unfold word_char in Hnext.
        destruct (is_delim d); [discriminate|]. simpl in Hnext. congruence.
Qed.

(** The non-empty pieces of the splitter are the segments of the text. *)
Lemma segments_split_ws s : segments s (List.filter truthy (split_ws s)).
Proof.
  destruct (segments_exist s) as [segs Hsegs].
  rewrite (split_ws_segments _ _ Hsegs). exact Hsegs.
Qed.

(** ** Further properties of the extractor *)

(** *** The identifier search *)

Lemma strip_prefix_Some p s r : strip_prefix p s = Some r <-> s = p ++ r.
Proof.
  revert s. induction p as [|a p IH]; intros s; simpl.
  - split; [intros [= ->]; reflexivity|intros ->; reflexivity].
  - destruct s as [|b s]; [split; discriminate|].
    destruct (a =? b) eqn:Hab.
    + apply N.eqb_eq in Hab. subst b. rewrite IH.
      split; [intros ->; reflexivity|intros [= ->]; reflexivity].
    + apply N.eqb_neq in Hab. split; [discriminate|intros [= ? _]; congruence].
Qed.

Section IdSearch.
Context `{RT : PyRuntime}.

Lemma id_match_here_Some prefix s g :
  id_match_here prefix s = Some g ->
  exists digits post,
    s = prefix ++ digits ++ post /\ g = prefix ++ digits /\ digits <> [] /\
    Forall (fun c => is_decimal c = true) digits /\
    (is_decimal <$> head post) <> Some true.
Proof.
  unfold id_match_here.
  destruct (strip_prefix prefix s) as [rest|] eqn:Hp; [|discriminate]. simpl.
  apply strip_prefix_Some in Hp.
  destruct (drop_while_split is_decimal rest) as (Hrest & Hall & Hhd).
  destruct (take_while is_decimal rest) as [|d ds] eqn:Htw; [discriminate|].
  intros [= <-]. exists (d :: ds), (drop_while is_decimal rest).
  repeat split; try assumption; [congruence|discriminate].
Qed.

Lemma id_match_here_None prefix s :
  id_match_here prefix s = None <-> ~ occurs_at prefix s 0.
Proof.
  unfold id_match_here, occurs_at. rewrite drop_0. split.
  - intros Hnone (d & rest & -> & Hd).
    rewrite (proj2 (strip_prefix_Some prefix _ (d :: rest)) eq_refl) in Hnone.
    simpl in Hnone. rewrite Hd in Hnone. discriminate.
  - intros Hno. destruct (strip_prefix prefix s) as [rest|] eqn:Hp; [|reflexivity].
    simpl. apply strip_prefix_Some in Hp.
    destruct rest as [|d rest]; [reflexivity|]. simpl.
    destruct (is_decimal d) eqn:Hd; [|reflexivity].
    exfalso. apply Hno. exists d, rest. tauto.
Qed.

Lemma occurs_at_shift prefix c s k :
  occurs_at prefix (c :: s) (S k) <-> occurs_at prefix s k.
Proof. reflexivity. Qed.

Lemma id_search_from_Some prefix pos s m :
  id_search_from prefix pos s = Some m ->
  exists k,
    m_start m = (pos + k)%nat /\ (k <= length s)%nat /\
    id_match_here prefix (drop k s) = Some (m_group1 m) /\
    forall j, (j < k)%nat -> ~ occurs_at prefix s j.
Proof.
  revert pos. induction s as [|c s IH]; intros pos; simpl.
  - destruct (id_match_here prefix []) as [g|] eqn:Hm; [|discriminate].
    intros [= <-]. exists 0%nat. simpl.
    repeat split; [lia|lia|exact Hm|intros; lia].
  - destruct (id_match_here prefix (c :: s)) as [g|] eqn:Hm.
    + intros [= <-]. exists 0%nat. simpl.
      repeat split; [lia|lia|exact Hm|intros; lia].
    + intros Hrec. destruct (IH _ Hrec) as (k & Hstart & Hlen & Hhere & Hleft).
      exists (S k). simpl. repeat split; [lia|lia|exact Hhere|].
      intros [|j] Hj; [apply id_match_here_None, Hm|].
      rewrite occurs_at_shift. apply Hleft. lia.
Qed.

Lemma id_search_from_None prefix pos s :
  id_search_from prefix pos s = None <-> forall k, ~ occurs_at prefix s k.
Proof.
  revert pos. induction s as [|c s IH]; intros pos; simpl.
  - destruct (id_match_here prefix []) as [g|] eqn:Hm.
    + split; [discriminate|]. intros Hno. exfalso.
      apply (Hno 0%nat). apply id_match_here_Some in Hm
        as (digits & post & Hs & _ & Hne & Hall & _).
      destruct prefix; [|discriminate]. destruct digits; [congruence|discriminate].
    + split; [|reflexivity]. intros _ k (d & rest & Hk & _).
      rewrite drop_nil in Hk. destruct prefix; discriminate.
  - destruct (id_match_here prefix (c :: s)) as [g|] eqn:Hm.
    + split; [discriminate|]. intros Hno. exfalso.
      assert (Hz : id_match_here prefix (c :: s) = None)
        by (apply id_match_here_None, Hno).
      congruence.
    + rewrite IH. split.
      * intros Hno [|k]; [apply id_match_here_None, Hm|].
        rewrite occurs_at_shift. apply Hno.
      * intros Hno k. rewrite <- occurs_at_shift. apply Hno.
Qed.

(** X1. A match of the search pattern is the leftmost one and takes the
    whole run of digits: the content reads [before ++ prefix ++ digits ++
    after] with [before] of length [match.start()], the digits non-empty
    and decimal, no digit at the head of [after], and the pattern matches
    at no earlier offset. *)
Theorem id_search_leftmost_greedy prefix s m :
  id_search prefix s = Some m ->
  (exists digits post,
     s = take (m_start m) s ++ prefix ++ digits ++ post /\
     length (take (m_start m) s) = m_start m /\
     m_group1 m = prefix ++ digits /\ digits <> [] /\
     Forall (fun c => is_decimal c = true) digits /\
     (is_decimal <$> head post) <> Some true) /\
  (forall k, (k < m_start m)%nat -> ~ occurs_at prefix s k).
Proof.
  unfold id_search. intros Hs.
  destruct (id_search_from_Some _ _ _ _ Hs) as (k & Hstart & Hlen & Hhere & Hleft).
  simpl in Hstart. subst k. split; [|exact Hleft].
  destruct (id_match_here_Some _ _ _ Hhere)
    as (digits & post & Hdrop & Hg & Hne & Hall & Hhd).
  exists digits, post. repeat split; try assumption.
  - rewrite <- Hdrop. symmetry. apply take_drop.
  - apply length_take_le. exact Hlen.
Qed.

(** X2. The search finds nothing exactly when the prefix is followed by a
    decimal digit at no offset of the content. *)
Theorem id_search_none_iff prefix s :
  id_search prefix s = None <-> forall k, ~ occurs_at prefix s k.
Proof. apply id_search_from_None. Qed.

End IdSearch.

Lemma id_search_leftmost_greedy_witness :
  (exists digits post,
     Sample.embedded_text =
       take 5 Sample.embedded_text ++ Sample.px ++ digits ++ post /\
     length (take 5 Sample.embedded_text) = 5%nat /\
     Sample.id1 = Sample.px ++ digits /\ digits <> [] /\
     Forall (fun c => Fragment.is_ascii_digit c = true) digits /\
     (Fragment.is_ascii_digit <$> head post) <> Some true) /\
  (forall k, (k < 5)%nat ->
     ~ occurs_at (RT := Fragment.runtime) Sample.px Sample.embedded_text k).
Proof.
  apply (id_search_leftmost_greedy (RT := Fragment.runtime) Sample.px
           Sample.embedded_text {| m_start := 5; m_group1 := Sample.id1 |}).
  vm_compute. reflexivity.
Defined.

(** *** What a record holds *)

Lemma filter_all_true {A} (f : A -> bool) (l : list A) :
  Forall (fun a => f a = true) l -> List.filter f l = l.
Proof.
  induction 1 as [|a l Ha _ IH]; simpl; [reflexivity|]. rewrite Ha, IH. reflexivity.
Qed.

Lemma keep_first_length (l : list pystr) : (length (keep_first l) <= length l)%nat.
Proof.
  induction l as [|x l IH]; simpl; [lia|].
  pose proof (filter_length_le (fun y => negb (bool_decide (y = x))) (keep_first l)).
  lia.
Qed.

Section Records.
Context `{RT : PyRuntime}.

Lemma id_candidates_length self words :
  (length (id_candidates self words) <= length words)%nat.
Proof.
  induction words as [|w rest IH]; simpl; [lia|].
  destruct (id_search _ _); [destruct (Qgeb _ _)|]; simpl; lia.
Qed.

Lemma made_from_candidate self words file cands seen r :
  made_from self words file cands seen r ->
  exists word m raw, (word, m) ∈ cands /\ r = build_record word m raw file.
Proof.
  intros (pre & word & m & post & raw & -> & _ & _ & _ & ->).
  exists word, m, raw. split; [|reflexivity].
  apply elem_of_app. right. apply elem_of_cons. left. reflexivity.
Qed.

(** X3. The identifier of a record stands in the content of a word of the
    page; it is the configured prefix followed by a non-empty run of
    decimal digits, and the numeric identifier is the digits of the prefix
    followed by that run: when the prefix holds no digit, the identifier is
    the prefix followed by the numeric identifier. *)
Theorem record_identifier_fields self words file recs :
  extract self words file = Some recs ->
  Forall (fun r =>
    exists word before digits after,
      word ∈ words /\
      content word = before ++ student_id_full r ++ after /\
      student_id_full r = student_id_prefix (config self) ++ digits /\
      digits <> [] /\
      Forall (fun c => is_decimal c = true) digits /\
      student_id_num r = digits_only (student_id_prefix (config self)) ++ digits /\
      (digits_only (student_id_prefix (config self)) = [] ->
       student_id_full r = student_id_prefix (config self) ++ student_id_num r)) recs.
Proof.
  intros Hrun. apply Forall_forall. intros r Hr.
  destruct (build_records_origin _ _ _ _ _ _ _ Hrun r Hr) as [Hnil|Hmade];
    [inversion Hnil|].
  apply made_from_candidate in Hmade as (word & m & raw & Hcand & ->).
  apply elem_of_id_candidates in Hcand as (Hin & Hs & _).
  unfold id_search in Hs.
  destruct (id_search_from_Some _ _ _ _ Hs) as (k & _ & _ & Hhere & _).
  destruct (id_match_here_Some _ _ _ Hhere)
    as (digits & post & Hdrop & Hg & Hne & Hall & _).
  assert (Hnum : student_id_num (build_record word m raw file) =
                 digits_only (student_id_prefix (config self)) ++ digits).
  { unfold build_record. destruct (parse_name raw) as [[? ?] ?]. simpl.
    rewrite Hg. unfold digits_only. rewrite List.filter_app.
    f_equal. apply filter_all_true, Hall. }
  exists word, (take k (content word)), digits, post.
  rewrite build_record_id, Hnum, Hg.
  repeat split; try assumption.
  - rewrite <- (take_drop k (content word)) at 1. rewrite Hdrop, <- !app_assoc.
    reflexivity.
  - intros ->. reflexivity.
Qed.

(** X4. Every record carries the file name the call was given, and a page
    yields at most one record per word. *)
Theorem extract_file_name_and_count self words file recs :
  extract self words file = Some recs ->
  Forall (fun r => file_name r = Some file) recs /\
  (length recs <= length words)%nat.
Proof.
  intros Hrun. split.
  - apply Forall_forall. intros r Hr.
    destruct (build_records_origin _ _ _ _ _ _ _ Hrun r Hr) as [Hnil|Hmade];
      [inversion Hnil|].
    apply made_from_candidate in Hmade as (word & m & raw & _ & ->).
    unfold build_record. destruct (parse_name raw) as [[? ?] ?]. reflexivity.
  - unfold extract in Hrun. apply build_records_ids in Hrun. simpl in Hrun.
    apply (f_equal length) in Hrun. rewrite length_map in Hrun. rewrite Hrun.
    etransitivity; [apply keep_first_length|].
    etransitivity; [apply filter_length_le|].
    rewrite length_map. apply id_candidates_length.
Qed.

End Records.

Lemma record_identifier_fields_witness :
  Forall (fun r => student_id_full r = Sample.px ++ student_id_num r) Sample.records.
Proof.
  pose proof (record_identifier_fields Sample.self Sample.page [] Sample.records
                sample_page) as Hall.
  eapply Forall_impl; [exact Hall|].
  intros r (? & ? & ? & ? & _ & _ & _ & _ & _ & _ & Hfull).
  apply Hfull. reflexivity.
Defined.

Lemma extract_file_name_and_count_witness :
  Forall (fun r => file_name r = Some []) Sample.records /\
  (length Sample.records <= length Sample.page)%nat.
Proof.
  apply (extract_file_name_and_count Sample.self Sample.page [] Sample.records).
  vm_compute. reflexivity.
Defined.

(** *** What the name parser lets through *)

Lemma re_split_ws_Forall (P : char -> Prop) b cur s :
  Forall P cur -> Forall P s -> Forall (Forall P) (re_split_ws b cur s).
Proof.
  intros Hcur Hs. revert b cur Hcur.
  induction Hs as [|c s Hc Hs IH]; intros b cur Hcur; simpl.
  - repeat constructor. exact Hcur.
  - destruct (is_space c); [destruct b|destruct (c =? IDEOGRAPHIC_SPACE)].
    + apply IH, Hcur.
    + constructor; [exact Hcur|apply IH; constructor].
    + constructor; [exact Hcur|apply IH; constructor].
    + apply IH. apply Forall_app. split; [exact Hcur|repeat constructor; exact Hc].
Qed.

Lemma re_split_ws_no_space b cur s :
  Forall (fun c => is_space c = false) cur ->
  Forall (Forall (fun c => is_space c = false)) (re_split_ws b cur s).
Proof.
  revert b cur. induction s as [|c s IH]; intros b cur Hcur; simpl.
  - repeat constructor. exact Hcur.
  - destruct (is_space c) eqn:Hc; [destruct b|destruct (c =? IDEOGRAPHIC_SPACE)].
    + apply IH, Hcur.
    + constructor; [exact Hcur|apply IH; constructor].
    + constructor; [exact Hcur|apply IH; constructor].
    + apply IH. apply Forall_app. split; [exact Hcur|repeat constructor; exact Hc].
Qed.

Lemma Forall_filter_bool {A} (P : A -> Prop) (f : A -> bool) (l : list A) :
  Forall P l -> Forall P (List.filter f l).
Proof.
  induction 1 as [|a l Ha _ IH]; simpl; [constructor|].
  destruct (f a); [constructor; assumption|assumption].
Qed.

Lemma remove_parens_clean s :
  Forall (fun c => c <> LPAREN /\ c <> RPAREN) (remove_parens s).
Proof.
  unfold remove_parens. apply Forall_forall. intros c Hc.
  apply list_elem_of_In, filter_In in Hc as [_ Hc].
  apply negb_true_iff, orb_false_iff in Hc as [H1 H2].
  apply N.eqb_neq in H1, H2. tauto.
Qed.

(** The three results are cut out of the cleaned text, give or take the
    one joining space. *)
Lemma parse_name_Forall (P : char -> Prop) raw s n f :
  P SPACE ->
  Forall P (remove_parens (strip raw)) ->
  parse_name raw = (s, n, f) ->
  Forall P s /\ Forall P n /\ Forall P f.
Proof.
  intros Hsp Hclean. unfold parse_name.
  destruct (truthy (remove_parens (strip raw))); simpl;
    [|intros [= <- <- <-]; repeat split; constructor].
  destruct (is_alpha _);
    [intros [= <- <- <-]; repeat split; (constructor || assumption)|].
  assert (Hparts : Forall (Forall P)
            (List.filter truthy (split_ws (remove_parens (strip raw))))).
  { apply Forall_filter_bool, re_split_ws_Forall; [constructor|exact Hclean]. }
  destruct (List.filter truthy _) as [|p1 [|p2 ps]]; simpl;
    try (intros [= <- <- <-]; repeat split; (constructor || assumption)).
  intros [= <- <- <-].
  inversion Hparts as [|? ? H1 Hrest]; subst.
  assert (Hn : Forall P (p2 ++ concat ps)).
  { change (Forall P (concat (p2 :: ps))). apply Forall_concat. exact Hrest. }
  repeat split; try assumption.
  apply Forall_app. split; [exact H1|]. constructor; assumption.
Qed.

(** X5. No parenthesis survives in the surname, the given name or the
    full name. *)
Theorem parse_name_drops_parentheses raw s n f :
  parse_name raw = (s, n, f) ->
  Forall (fun c => c <> LPAREN /\ c <> RPAREN) s /\
  Forall (fun c => c <> LPAREN /\ c <> RPAREN) n /\
  Forall (fun c => c <> LPAREN /\ c <> RPAREN) f.
Proof.
  apply parse_name_Forall; [split; discriminate|apply remove_parens_clean].
Qed.

(** X6. The surname and the given name hold no whitespace, and the full
    name is empty exactly when nothing but parentheses and surrounding
    whitespace was given. *)
Theorem parse_name_fields_unspaced raw s n f :
  parse_name raw = (s, n, f) ->
  Forall (fun c => is_space c = false) s /\
  Forall (fun c => is_space c = false) n /\
  (f = [] <-> remove_parens (strip raw) = []).
Proof.
  unfold parse_name.
  destruct (remove_parens (strip raw)) as [|c clean] eqn:Hclean; simpl;
    [intros [= <- <- <-]; repeat split; constructor|].
  destruct (is_alpha _);
    [intros [= <- <- <-]; repeat split; (constructor || discriminate)|].
  assert (Hparts : Forall (Forall (fun c => is_space c = false))
            (List.filter truthy (split_ws (c :: clean))))
    by (apply Forall_filter_bool, re_split_ws_no_space; constructor).
  destruct (List.filter truthy (split_ws (c :: clean))) as [|p1 [|p2 ps]]; simpl;
    try (intros [= <- <- <-]; repeat split; (constructor || discriminate)).
  intros [= <- <- <-].
  inversion Hparts as [|? ? H1 Hrest]; subst.
  repeat split; try discriminate; [exact H1| |destruct p1; discriminate].
  change (Forall (fun c => is_space c = false) (concat (p2 :: ps))).
  apply Forall_concat. exact Hrest.
Qed.

Lemma parse_name_drops_parentheses_witness :
  Forall (fun c => c <> LPAREN /\ c <> RPAREN) (Sample.yamada ++ Sample.taro).
Proof.
  refine (proj2 (proj2 (parse_name_drops_parentheses
                          ([LPAREN] ++ Sample.yamada ++ [RPAREN] ++ Sample.taro)
                          [] [] (Sample.yamada ++ Sample.taro) _))).
  reflexivity.
Defined.

Lemma parse_name_fields_unspaced_witness :
  Forall (fun c => is_space c = false) Sample.yamada /\
  Forall (fun c => is_space c = false) Sample.taro /\
  (Sample.yamada ++ [SPACE] ++ Sample.taro = [] <->
   remove_parens (strip (Sample.yamada ++ [SPACE; IDEOGRAPHIC_SPACE] ++ Sample.taro)) = []).
Proof.
  apply (parse_name_fields_unspaced
           (Sample.yamada ++ [SPACE; IDEOGRAPHIC_SPACE] ++ Sample.taro)).
  reflexivity.
Defined.

(** *** What the embedded check keeps *)

(** X7. An embedded raw name is a non-empty stretch of the text before the
    identifier, free of whitespace at both ends; what is dropped in front
    of it is whitespace, and what is dropped behind it is whitespace and
    at most the one opening parenthesis. *)
Theorem embedded_name_is_substring pre raw :
  embedded_check pre = Embedded raw ->
  exists l r,
    pre = l ++ raw ++ r /\
    Forall (fun c => is_space c = true) l /\
    Forall (fun c => is_space c = true \/ c = LPAREN) r /\
    raw <> [] /\
    (is_space <$> head raw) <> Some true /\
    (is_space <$> last raw) <> Some true.
Proof.
  intros Hemb. pose proof (embedded_check_nonempty _ _ Hemb) as Hne.
  rewrite embedded_check_spec in Hemb. unfold trailing_paren_trimmed in Hemb.
  destruct (strip_spec pre) as (l & r & Hpre & Hl & Hr & Hhd & Hlast).
  assert (Hr' : Forall (fun c => is_space c = true \/ c = LPAREN) r)
    by (eapply Forall_impl; [exact Hr|tauto]).
  destruct (rev (strip pre)) as [|c body] eqn:Hrev; [discriminate|].
  assert (Hcore : strip pre = rev body ++ [c]).
  { rewrite <- (rev_involutive (strip pre)), Hrev. reflexivity. }
  destruct (c =? LPAREN) eqn:Hc.
  - apply N.eqb_eq in Hc. subst c.
    destruct (strip_spec (rev body)) as (l' & r' & Hbody & Hl' & Hr2 & Hhd' & Hlast').
    destruct (strip (rev body)) as [|a core] eqn:Hs; [discriminate|].
    simpl in Hemb. injection Hemb as <-.
    exists (l ++ l'), (r' ++ [LPAREN] ++ r).
    split; [|split; [|split; [|split; [|split]]]]; try assumption.
    + rewrite Hpre, Hcore, Hbody, <- !app_assoc. reflexivity.
    + apply Forall_app. tauto.
    + apply Forall_app. split; [eapply Forall_impl; [exact Hr2|tauto]|].
      constructor; [right; reflexivity|exact Hr'].
  - destruct (strip pre) as [|a core] eqn:Hs; [discriminate|].
    simpl in Hemb. injection Hemb as <-.
    exists l, r. repeat split; assumption.
Qed.

Lemma embedded_name_is_substring_witness :
  exists l r,
    take 5 Sample.embedded_text = l ++ (Sample.yamada ++ Sample.taro) ++ r /\
    Forall (fun c => is_space c = true) l /\
    Forall (fun c => is_space c = true \/ c = LPAREN) r /\
    Sample.yamada ++ Sample.taro <> [] /\
    (is_space <$> head (Sample.yamada ++ Sample.taro)) <> Some true /\
    (is_space <$> last (Sample.yamada ++ Sample.taro)) <> Some true.
Proof.
  apply (embedded_name_is_substring (take 5 Sample.embedded_text)
           (Sample.yamada ++ Sample.taro)).
  reflexivity.
Defined.

(** *** Where the spatial search takes its words, and when it fails *)

Lemma box_cy_is_Some box : is_Some (box_cy box) <-> (3 <= length box)%nat.
Proof.
  unfold box_cy, point_y.
  destruct box as [|p0 [|p1 [|p2 rest]]]; simpl;
    (split; [intros [? [=]]; lia|intros; try lia; eexists; reflexivity]).
Qed.

Lemma box_height_is_Some box : is_Some (box_height box) <-> (3 <= length box)%nat.
Proof.
  unfold box_height, point_y.
  destruct box as [|p0 [|p1 [|p2 rest]]]; simpl;
    (split; [intros [? [=]]; lia|intros; try lia; eexists; reflexivity]).
Qed.

Lemma min_x_is_Some box : is_Some (min_x box) <-> (1 <= length box)%nat.
Proof.
  destruct box; simpl; (split; [intros [? [=]]; lia|intros; try lia; eexists; reflexivity]).
Qed.

Lemma max_x_is_Some box : is_Some (max_x box) <-> (1 <= length box)%nat.
Proof.
  destruct box; simpl; (split; [intros [? [=]]; lia|intros; try lia; eexists; reflexivity]).
Qed.

Lemma accumulate_parts h lx cands parts :
  accumulate h lx [] cands = Some parts ->
  Forall (fun p => exists c, c ∈ cands /\ content (fst c) = p) parts.
Proof.
  rewrite accumulate_unfold.
  destruct cands as [|[w1 x1] rest]; [intros [= <-]; constructor|].
  destruct (h * 5 <? lx - x1)%Z; [intros [= <-]; constructor|].
  destruct (min_x (points w1)) as [l1|]; [|discriminate]. simpl.
  assert (H1 : exists c, c ∈ (w1, x1) :: rest /\ content (fst c) = content w1)
    by (exists (w1, x1); split; [left|reflexivity]).
  destruct rest as [|[w2 x2] rest]; [intros [= <-]; repeat constructor; exact H1|].
  destruct (h * 5 <? l1 - x2)%Z; [intros [= <-]; repeat constructor; exact H1|].
  destruct (min_x (points w2)); [|discriminate]. intros [= <-].
  repeat constructor; [|exact H1].
  exists (w2, x2). split; [right; left|reflexivity].
Qed.

Lemma accumulate_returns h lx parts cands :
  Forall (fun c => (1 <= length (points (fst c)))%nat) cands ->
  is_Some (accumulate h lx parts cands).
Proof.
  intros Hall. revert lx parts.
  induction Hall as [|[w x] rest Hw _ IH]; intros lx parts; simpl.
  - eexists; reflexivity.
  - destruct (h * 5 <? lx - x)%Z; [eexists; reflexivity|].
    destruct (proj2 (min_x_is_Some (points w)) Hw) as [l ->]. simpl.
    destruct parts; [apply IH|eexists; reflexivity].
Qed.

Section SpatialSearchMore.
Context `{RT : PyRuntime}.

Lemma box_cy_short box : (length box < 3)%nat -> box_cy box = None.
Proof.
  intros Hlen. destruct (box_cy box) eqn:Hcy; [|reflexivity].
  assert (is_Some (box_cy box)) as Hs by (rewrite Hcy; eexists; reflexivity).
  apply box_cy_is_Some in Hs. lia.
Qed.

Lemma left_candidates_short self id_word id_cy h lx all_words word :
  word ∈ all_words -> inspected self id_word word ->
  (length (points word) < 3)%nat ->
  left_candidates self id_word id_cy h lx all_words = None.
Proof.
  intros Hin (Heq & Hex & Hid) Hlen.
  induction all_words as [|w rest IH]; [inversion Hin|]. simpl.
  apply elem_of_cons in Hin as [<-|Hin].
  - rewrite Heq, Hex, Hid, (box_cy_short _ Hlen). reflexivity.
  - rewrite (IH Hin).
    destruct (word_eqb w id_word), (excluded self w), (looks_like_id self w);
      try reflexivity.
    destruct (box_cy (points w)); [|reflexivity].
    destruct (max_x (points w)); reflexivity.
Qed.

Lemma left_candidates_None self id_word id_cy h lx all_words :
  left_candidates self id_word id_cy h lx all_words = None <->
  exists word, word ∈ all_words /\ inspected self id_word word /\
               (length (points word) < 3)%nat.
Proof.
  split; [|intros (word & Hin & Hins & Hlen);
           exact (left_candidates_short _ _ _ _ _ _ _ Hin Hins Hlen)].
  induction all_words as [|w rest IH]; simpl; [discriminate|].
  assert (Hrest : left_candidates self id_word id_cy h lx rest = None ->
                  exists word, word ∈ w :: rest /\ inspected self id_word word /\
                               (length (points word) < 3)%nat).
  { intros Hn. destruct (IH Hn) as (word & Hin & Hw).
    exists word. split; [right; exact Hin|exact Hw]. }
  destruct (word_eqb w id_word) eqn:Heq; [exact Hrest|].
  destruct (excluded self w) eqn:Hex; [exact Hrest|].
  destruct (looks_like_id self w) eqn:Hid; [exact Hrest|].
  destruct (box_cy (points w)) as [cy|] eqn:Hcy.
  - destruct (max_x (points w)) as [mx|] eqn:Hmx.
    + simpl. destruct (left_candidates _ _ _ _ _ rest) as [tl|];
        [simpl; destruct (_ && _); discriminate|].
      intros _. apply Hrest. reflexivity.
    + exfalso. assert (is_Some (box_cy (points w))) as Hs
        by (rewrite Hcy; eexists; reflexivity).
      apply box_cy_is_Some in Hs.
      assert (is_Some (max_x (points w))) as [? Hm] by (apply max_x_is_Some; lia).
      congruence.
  - intros _. exists w. split; [left|]. split; [unfold inspected; tauto|].
    destruct (le_lt_dec 3 (length (points w))) as [Hge|Hlt]; [|exact Hlt].
    apply box_cy_is_Some in Hge. rewrite Hcy in Hge. destruct Hge as [? [=]].
Qed.

(** X8. The name found by the spatial search is made of at most two word
    contents joined by one space; each comes from a word of the page that
    none of the three tests skips and whose right edge lies strictly left
    of the identifier box. *)
Theorem spatial_name_parts self id_word all_words raw_name :
  find_name_at_left self id_word all_words = Some raw_name ->
  exists parts lx,
    min_x (points id_word) = Some lx /\
    raw_name = join [SPACE] parts /\
    (length parts <= 2)%nat /\
    Forall (fun p => exists word x,
              word ∈ all_words /\ content word = p /\
              inspected self id_word word /\
              max_x (points word) = Some x /\ (x < lx)%Z) parts.
Proof.
  unfold find_name_at_left.
  destruct (box_cy (points id_word)) as [cy|]; [|discriminate].
  destruct (box_height (points id_word)) as [h|]; [|discriminate].
  destruct (min_x (points id_word)) as [lx|]; [|discriminate]. simpl.
  destruct (left_candidates _ _ _ _ _ _) as [cands|] eqn:Hc; [|discriminate]. simpl.
  destruct (accumulate _ _ _ _) as [parts|] eqn:Hacc; [|discriminate].
  intros [= <-]. exists parts, lx.
  split; [reflexivity|]. split; [reflexivity|].
  split; [exact (accumulate_length _ _ _ _ Hacc)|].
  eapply Forall_impl; [exact (accumulate_parts _ _ _ _ Hacc)|].
  intros p ([word x] & Hin & <-). simpl.
  rewrite sort_desc_perm in Hin.
  apply (elem_of_left_candidates _ _ _ _ _ _ _ Hc) in Hin
    as (Hw & Heq & Hex & Hid & w_cy & _ & Hmax & _ & Hlt).
  exists word, x. unfold inspected. tauto.
Qed.

(** X9. The spatial search raises exactly when the identifier box, or the
    box of a word that none of the three tests skips, has fewer than three
    points. *)
Theorem spatial_search_fails_iff self id_word all_words :
  find_name_at_left self id_word all_words = None <->
  (length (points id_word) < 3)%nat \/
  exists word, word ∈ all_words /\ inspected self id_word word /\
               (length (points word) < 3)%nat.
Proof.
  unfold find_name_at_left.
  destruct (box_cy (points id_word)) as [cy|] eqn:Hcy.
  - assert (Hlen : (3 <= length (points id_word))%nat)
      by (apply box_cy_is_Some; rewrite Hcy; eexists; reflexivity).
    destruct (proj2 (box_height_is_Some (points id_word)) Hlen) as [h ->].
    destruct (proj2 (min_x_is_Some (points id_word))) as [lx ->]; [lia|]. simpl.
    destruct (left_candidates self id_word cy h lx all_words) as [cands|] eqn:Hc; simpl.
    + destruct (accumulate_returns h lx [] (sort_desc cands)) as [parts ->].
      * rewrite sort_desc_perm. apply Forall_forall. intros [w x] Hin. simpl.
        apply (elem_of_left_candidates _ _ _ _ _ _ _ Hc) in Hin
          as (_ & _ & _ & _ & _ & _ & Hmax & _).
        apply max_x_is_Some. rewrite Hmax. eexists; reflexivity.
      * simpl. split; [discriminate|]. intros [Hshort|Hword]; [lia|].
        apply (left_candidates_None self id_word cy h lx) in Hword. congruence.
    + split; [|reflexivity]. intros _. right.
      apply (left_candidates_None self id_word cy h lx). exact Hc.
  - simpl. split; [|reflexivity]. intros _. left.
    destruct (le_lt_dec 3 (length (points id_word))) as [Hge|Hlt]; [|exact Hlt].
    apply box_cy_is_Some in Hge. rewrite Hcy in Hge. destruct Hge as [? [=]].
Qed.

End SpatialSearchMore.

Lemma spatial_name_parts_witness :
  exists parts lx,
    min_x (points Sample.w_id2) = Some lx /\
    Sample.yamada ++ [SPACE] ++ Sample.taro = join [SPACE] parts /\
    (length parts <= 2)%nat /\
    Forall (fun p => exists word x,
              word ∈ Sample.page_two_words /\ content word = p /\
              inspected Sample.self Sample.w_id2 word /\
              max_x (points word) = Some x /\ (x < lx)%Z) parts.
Proof.
  apply (spatial_name_parts Sample.self Sample.w_id2 Sample.page_two_words).
  vm_compute. reflexivity.
Defined.

(** *** The scan order and the spatial search *)

Lemma sorted_perm_eq (l l' : list (WordPrediction * Z)) :
  StronglySorted further_left l -> StronglySorted further_left l' ->
  Permutation l l' ->
  (forall c1 c2, c1 ∈ l -> c2 ∈ l -> snd c1 = snd c2 -> c1 = c2) ->
  l = l'.
Proof.
  intros Hs. revert l'. induction Hs as [|a l1 Hs1 IH Ha]; intros l' Hs' Hp Huniq.
  - apply Permutation_nil in Hp. congruence.
  - destruct Hs' as [|b l1' Hs1' Hb].
    + apply Permutation_sym, Permutation_nil in Hp. discriminate.
    + assert (Hab : a = b).
      { assert (Hin_a : a ∈ b :: l1') by (rewrite <- Hp; left).
        assert (Hin_b : b ∈ a :: l1) by (rewrite Hp; left).
        apply elem_of_cons in Hin_a as [?|Hin_a]; [assumption|].
        apply elem_of_cons in Hin_b as [?|Hin_b]; [congruence|].
        rewrite Forall_forall in Ha, Hb.
        specialize (Ha _ Hin_b). specialize (Hb _ Hin_a).
        unfold further_left in Ha, Hb.
        apply Huniq; [left|right; exact Hin_b|lia]. }
      subst b. f_equal. apply IH; [exact Hs1'|exact (Permutation_cons_inv Hp)|].
      intros c1 c2 H1 H2. apply Huniq; right; assumption.
Qed.

Section ScanOrder.
Context `{RT : PyRuntime}.

Lemma left_candidates_flat_map self id_word cy h lx all_words cands :
  left_candidates self id_word cy h lx all_words = Some cands ->
  cands = flat_map (candidate_of self id_word cy h lx) all_words.
Proof.
  revert cands. induction all_words as [|w rest IH]; intros cands; simpl.
  - intros [= <-]. reflexivity.
  - unfold candidate_of at 1.
    destruct (word_eqb w id_word); simpl; [apply IH|].
    destruct (excluded self w); simpl; [apply IH|].
    destruct (looks_like_id self w); simpl; [apply IH|].
    destruct (box_cy (points w)) as [w_cy|]; [|discriminate].
    destruct (max_x (points w)) as [x|]; [|discriminate]. simpl.
    destruct (left_candidates _ _ _ _ _ rest) as [tl|]; [|discriminate]. simpl.
    rewrite (IH tl eq_refl).
    destruct (aligned w_cy cy h && (x <? lx)%Z); intros [= <-]; reflexivity.
Qed.

(** X10. When no two words of the page end at the same x, the name found
    does not depend on the order in which the OCR engine lists the
    words. *)
Theorem spatial_search_order_free self id_word all_words all_words' :
  Permutation all_words all_words' ->
  (forall w1 w2 x, w1 ∈ all_words -> w2 ∈ all_words ->
     max_x (points w1) = Some x -> max_x (points w2) = Some x -> w1 = w2) ->
  find_name_at_left self id_word all_words' =
  find_name_at_left self id_word all_words.
Proof.
  intros Hperm Huniq. unfold find_name_at_left.
  destruct (box_cy (points id_word)) as [cy|]; [|reflexivity].
  destruct (box_height (points id_word)) as [h|]; [|reflexivity].
  destruct (min_x (points id_word)) as [lx|]; [|reflexivity]. simpl.
  destruct (left_candidates self id_word cy h lx all_words) as [cands|] eqn:Hc.
  - destruct (left_candidates self id_word cy h lx all_words') as [cands'|] eqn:Hc'.
    + simpl. replace (sort_desc cands') with (sort_desc cands); [reflexivity|].
      apply sorted_perm_eq; try apply sort_desc_sorted.
      * rewrite !sort_desc_perm.
        rewrite (left_candidates_flat_map _ _ _ _ _ _ _ Hc),
                (left_candidates_flat_map _ _ _ _ _ _ _ Hc').
        apply Permutation_flat_map, Hperm.
      * intros [w1 x1] [w2 x2] H1 H2 Hx. simpl in Hx. subst x2.
        rewrite sort_desc_perm in H1, H2.
        apply (elem_of_left_candidates _ _ _ _ _ _ _ Hc) in H1
          as (Hin1 & _ & _ & _ & _ & _ & Hm1 & _).
        apply (elem_of_left_candidates _ _ _ _ _ _ _ Hc) in H2
          as (Hin2 & _ & _ & _ & _ & _ & Hm2 & _).
        f_equal. exact (Huniq _ _ _ Hin1 Hin2 Hm1 Hm2).
    + exfalso. apply left_candidates_None in Hc' as (word & Hin & Hins & Hlen).
      rewrite <- Hperm in Hin.
      rewrite (left_candidates_short _ _ _ _ _ _ _ Hin Hins Hlen) in Hc. discriminate.
  - apply left_candidates_None in Hc as (word & Hin & Hins & Hlen).
    rewrite Hperm in Hin.
    rewrite (left_candidates_short _ _ _ _ _ _ _ Hin Hins Hlen). reflexivity.
Qed.

End ScanOrder.

Lemma spatial_search_order_free_witness :
  find_name_at_left Sample.self Sample.w_id2
    [Sample.w_id2; Sample.w_given; Sample.w_far; Sample.w_name] =
  find_name_at_left Sample.self Sample.w_id2 Sample.page_two_words.
Proof.
  apply spatial_search_order_free.
  - unfold Sample.page_two_words.
    apply Permutation_sym.
    change [Sample.w_id2; Sample.w_given; Sample.w_far; Sample.w_name]
      with ([Sample.w_id2] ++ [Sample.w_given; Sample.w_far; Sample.w_name]).
    etransitivity; [apply Permutation_app_comm|]. simpl.
    etransitivity; [apply perm_swap|]. apply perm_skip. apply perm_swap.
  - intros w1 w2 x H1 H2. unfold Sample.page_two_words in H1, H2.
    rewrite !elem_of_cons, elem_of_nil in H1, H2.
    destruct H1 as [->|[->|[->|[->|[]]]]], H2 as [->|[->|[->|[->|[]]]]];
      vm_compute; congruence.
Defined.

(** Two words that end at the same x are taken in scan order: here the
    order of the page decides the name. *)
Example tie_follows_scan_order :
  find_name_at_left Sample.self Sample.w_id2
    [Sample.w_upper; Sample.w_lower; Sample.w_id2] =
    Some (Sample.taro ++ [SPACE] ++ Sample.yamada) /\
  find_name_at_left Sample.self Sample.w_id2
    [Sample.w_lower; Sample.w_upper; Sample.w_id2] =
    Some (Sample.yamada ++ [SPACE] ++ Sample.taro).
Proof. split; vm_compute; reflexivity. Qed.

(** ** The driver and the writer *)

(** *** Regrouping by file name *)

Lemma group_add_cases key s grouped :
  (exists g1 students g2,
     grouped = g1 ++ (key, students) :: g2 /\ (key ∉ map fst g1) /\
     group_add key s grouped = g1 ++ (key, students ++ [s]) :: g2) \/
  ((key ∉ map fst grouped) /\ group_add key s grouped = grouped ++ [(key, [s])]).
Proof.
  induction grouped as [|[k students] rest IH]; simpl.
  - right. split; [apply not_elem_of_nil|reflexivity].
  - destruct (decide (k = key)) as [->|Hne].
    + rewrite bool_decide_eq_true_2 by reflexivity. left.
      exists [], students, rest. repeat split. apply not_elem_of_nil.
    + rewrite bool_decide_eq_false_2 by assumption.
      destruct IH as [(g1 & l & g2 & -> & Hg1 & ->)|[Hnot ->]].
      * left. exists ((k, students) :: g1), l, g2. repeat split.
        simpl. rewrite elem_of_cons. intros [?|?]; [congruence|tauto].
      * right. split; [|reflexivity]. rewrite elem_of_cons.
        intros [?|?]; [congruence|tauto].
Qed.

Lemma filed_under_snoc key all s :
  filed_under key (all ++ [s]) =
  filed_under key all ++ (if bool_decide (file_name s = key) then [s] else []).
Proof. unfold filed_under. rewrite List.filter_app. reflexivity. Qed.

Lemma filed_under_none key all :
  Forall (fun s => file_name s <> key) all -> filed_under key all = [].
Proof.
  induction 1 as [|s all Hs _ IH]; [reflexivity|].
  unfold filed_under in *. simpl. rewrite bool_decide_eq_false_2 by assumption.
  exact IH.
Qed.

Lemma grouped_by_name_add grouped all s :
  grouped_by_name grouped all ->
  grouped_by_name (group_add (file_name s) s grouped) (all ++ [s]).
Proof.
  intros (Hnd & Hgroups & Hkeys). unfold grouped_by_name.
  destruct (group_add_cases (file_name s) s grouped)
    as [(g1 & students & g2 & -> & Hg1 & ->)|[Hnot ->]].
  - rewrite map_app in *. simpl in *.
    apply NoDup_app in Hnd as (Hnd1 & Hsep & Hnd2).
    apply NoDup_cons in Hnd2 as [Hk2 Hnd2].
    apply Forall_app in Hgroups as [Hgr1 Hgr2].
    apply Forall_cons in Hgr2 as [[_ Hmid] Hgr2]. simpl in Hmid.
    split; [|split].
    + apply NoDup_app. repeat split; try assumption. apply NoDup_cons. tauto.
    + apply Forall_app. split; [|apply Forall_cons; split].
      * apply Forall_forall. intros [k l] Hin.
        rewrite Forall_forall in Hgr1. destruct (Hgr1 _ Hin) as [Hne Hl].
        split; [exact Hne|]. simpl in *. rewrite filed_under_snoc.
        rewrite bool_decide_eq_false_2, app_nil_r; [exact Hl|].
        intros Heq. apply Hg1. rewrite Heq.
        apply list_elem_of_fmap. exists (k, l). tauto.
      * simpl. split; [destruct students; discriminate|].
        rewrite filed_under_snoc, bool_decide_eq_true_2 by reflexivity.
        congruence.
      * apply Forall_forall. intros [k l] Hin.
        rewrite Forall_forall in Hgr2. destruct (Hgr2 _ Hin) as [Hne Hl].
        split; [exact Hne|]. simpl in *. rewrite filed_under_snoc.
        rewrite bool_decide_eq_false_2, app_nil_r; [exact Hl|].
        intros Heq. apply Hk2. rewrite Heq.
        apply list_elem_of_fmap. exists (k, l). tauto.
    + apply Forall_app. split; [exact Hkeys|]. repeat constructor.
      rewrite elem_of_app, elem_of_cons. tauto.
  - split; [|split].
    + rewrite map_app. simpl. apply NoDup_app. repeat split; try assumption.
      * intros k Hk Hk'. apply list_elem_of_singleton in Hk'. congruence.
      * apply NoDup_singleton.
    + apply Forall_app. split.
      * apply Forall_forall. intros [k l] Hin.
        rewrite Forall_forall in Hgroups. destruct (Hgroups _ Hin) as [Hne Hl].
        split; [exact Hne|]. simpl in *. rewrite filed_under_snoc.
        rewrite bool_decide_eq_false_2, app_nil_r; [exact Hl|].
        intros Heq. apply Hnot. rewrite Heq.
        apply list_elem_of_fmap. exists (k, l). tauto.
      * repeat constructor; [discriminate|]. simpl.
        rewrite filed_under_snoc, bool_decide_eq_true_2 by reflexivity.
        rewrite filed_under_none; [reflexivity|].
        eapply Forall_impl; [exact Hkeys|]. intros s' Hs' Heq. simpl in Hs'.
        apply Hnot. rewrite <- Heq. exact Hs'.
    + rewrite map_app. simpl. apply Forall_app. split.
      * eapply Forall_impl; [exact Hkeys|]. intros s' Hs'. simpl in *.
        apply elem_of_app. tauto.
      * repeat constructor. apply elem_of_app. right. left.
Qed.

Lemma group_fold_invariant all grouped done :
  grouped_by_name grouped done ->
  grouped_by_name
    (foldl (fun grouped s => group_add (file_name s) s grouped) grouped all)
    (done ++ all).
Proof.
  revert grouped done. induction all as [|s all IH]; intros grouped done Hinv; simpl.
  - rewrite app_nil_r. exact Hinv.
  - replace (done ++ s :: all) with ((done ++ [s]) ++ all)
      by (rewrite <- app_assoc; reflexivity).
    apply IH, grouped_by_name_add, Hinv.
Qed.

Lemma group_by_file_inv all_results :
  grouped_by_name (group_by_file all_results) all_results.
Proof.
  unfold group_by_file.
  apply (group_fold_invariant all_results [] []).
  repeat split; constructor.
Qed.

(** X11. The regrouping of the split mode files every record under its
    file name: the keys are distinct, each key holds exactly the records
    of that file name in their original order, no group is empty, and
    every record's file name is a key. *)
Theorem group_by_file_spec all_results :
  NoDup (map fst (group_by_file all_results)) /\
  Forall (fun g => snd g <> [] /\ snd g = filed_under (fst g) all_results)
    (group_by_file all_results) /\
  Forall (fun s => file_name s ∈ map fst (group_by_file all_results)) all_results.
Proof. apply group_by_file_inv. Qed.

Lemma group_add_concat key s grouped :
  Permutation (concat (map snd (group_add key s grouped)))
              (concat (map snd grouped) ++ [s]).
Proof.
  induction grouped as [|[k students] rest IH]; simpl; [reflexivity|].
  destruct (bool_decide (k = key)); simpl.
  - rewrite <- !app_assoc. apply Permutation_app_head, Permutation_app_comm.
  - rewrite IH, app_assoc. reflexivity.
Qed.

(** X12. The regrouping neither loses nor repeats a record. *)
Theorem group_by_file_keeps_all all_results :
  Permutation (concat (map snd (group_by_file all_results))) all_results.
Proof.
  unfold group_by_file.
  enough (Hgen : forall grouped,
            Permutation
              (concat (map snd
                 (foldl (fun grouped s => group_add (file_name s) s grouped)
                    grouped all_results)))
              (concat (map snd grouped) ++ all_results))
    by apply (Hgen []).
  induction all_results as [|s all IH]; intros grouped; simpl.
  - rewrite app_nil_r. reflexivity.
  - rewrite IH, group_add_concat, <- app_assoc. reflexivity.
Qed.

(** *** The tables the writer leaves *)

Lemma row_merged s :
  dict_to_list ExtrasIgnore fieldnames (model_dump s) = Some (csv_row s).
Proof. reflexivity. Qed.

Lemma row_split s :
  (data ← dict_del (py "file_name") (model_dump s);
   dict_to_list ExtrasRaise fieldnames data) = Some (csv_row s).
Proof. reflexivity. Qed.

Lemma mapM_rows (f : StudentInfo -> option (list Value)) students :
  (forall s, f s = Some (csv_row s)) ->
  mapM f students = Some (map csv_row students).
Proof.
  intros Hf. apply mapM_Some. induction students as [|s rest IH]; simpl.
  - constructor.
  - constructor; [apply Hf|exact IH].
Qed.

Lemma write_merged_table students output_path fs :
  write_merged students output_path fs =
    Some (<[output_path := header_row :: map csv_row students]> fs).
Proof.
  unfold write_merged. rewrite (mapM_rows _ _ row_merged). reflexivity.
Qed.

Lemma write_split_table s students original output_dir fs :
  write_split (s :: students) (Some original) output_dir fs =
    Some (<[PosixPath.join output_dir
              (fst (PosixPath.splitext (PosixPath.basename original))
               ++ py "_result.csv")
            := header_row :: map csv_row (s :: students)]> fs).
Proof.
  unfold write_split. cbn [mbind option_bind].
  rewrite (mapM_rows _ (s :: students) row_split). reflexivity.
Qed.

(** X13. Both writers succeed on every list of students and leave the
    header followed by one row of the six columns per student, in order;
    the file name is in no row, and the strict writer of the split mode
    meets no unknown key.  The split writer leaves the file system as it
    is for an empty list and raises for a non-empty list without file
    name. *)
Theorem writer_tables students output_dir fs :
  (forall output_path,
     write_merged students output_path fs =
       Some (<[output_path := header_row :: map csv_row students]> fs)) /\
  (forall original, write_split [] original output_dir fs = Some fs) /\
  (forall s original,
     write_split (s :: students) (Some original) output_dir fs =
       Some (<[PosixPath.join output_dir
                 (fst (PosixPath.splitext (PosixPath.basename original))
                  ++ py "_result.csv")
               := header_row :: map csv_row (s :: students)]> fs)) /\
  (forall s, write_split (s :: students) None output_dir fs = None).
Proof.
  split; [intros; apply write_merged_table|].
  split; [reflexivity|].
  split; [intros; apply write_split_table|reflexivity].
Qed.

(** *** Output paths *)

Lemma rfind_absent c s : Forall (fun d => d <> c) s -> PosixPath.rfind c s = (-1)%Z.
Proof.
  induction 1 as [|d s Hd _ IH]; simpl; [reflexivity|].
  rewrite IH. simpl. apply N.eqb_neq in Hd. rewrite Hd. reflexivity.
Qed.

Lemma rfind_last c a b :
  Forall (fun d => d <> c) b -> PosixPath.rfind c (a ++ c :: b) = Z.of_nat (length a).
Proof.
  intros Hb. induction a as [|d a IH].
  - simpl. rewrite (rfind_absent _ _ Hb). simpl. rewrite N.eqb_refl. reflexivity.
  - simpl app. simpl PosixPath.rfind. rewrite IH.
    destruct (0 <=? Z.of_nat (length a))%Z eqn:Hle; [simpl length; lia|].
    apply Z.leb_gt in Hle. lia.
Qed.

Lemma basename_plain name :
  Forall (fun c => c <> PosixPath.SLASH) name -> PosixPath.basename name = name.
Proof. intros H. unfold PosixPath.basename. rewrite (rfind_absent _ _ H). reflexivity. Qed.

Lemma basename_in_dir dir name :
  Forall (fun c => c <> PosixPath.SLASH) name -> PosixPath.basename (dir ++ PosixPath.SLASH :: name) = name.
Proof.
  intros H. unfold PosixPath.basename. rewrite (rfind_last _ _ _ H).
  replace (Z.to_nat (Z.of_nat (length dir) + 1)) with (length (dir ++ [PosixPath.SLASH]))
    by (rewrite length_app; simpl; lia).
  replace (dir ++ PosixPath.SLASH :: name) with ((dir ++ [PosixPath.SLASH]) ++ name)
    by (rewrite <- app_assoc; reflexivity).
  apply drop_app_length.
Qed.

Lemma splitext_stem stem ext :
  Forall (fun c => c <> PosixPath.SLASH) stem ->
  Exists (fun c => c <> PosixPath.DOT) stem ->
  Forall (fun c => c <> PosixPath.DOT /\ c <> PosixPath.SLASH) ext ->
  PosixPath.splitext (stem ++ PosixPath.DOT :: ext) = (stem, PosixPath.DOT :: ext).
Proof.
  intros Hstem Hreal Hext. unfold PosixPath.splitext.
  assert (Hsep : PosixPath.rfind PosixPath.SLASH (stem ++ PosixPath.DOT :: ext) = (-1)%Z).
  { apply rfind_absent, Forall_app. split; [exact Hstem|].
    constructor; [discriminate|]. eapply Forall_impl; [exact Hext|]. cbv beta. tauto. }
  assert (Hdot : PosixPath.rfind PosixPath.DOT (stem ++ PosixPath.DOT :: ext) = Z.of_nat (length stem)).
  { apply rfind_last. eapply Forall_impl; [exact Hext|]. cbv beta. tauto. }
  rewrite Hsep, Hdot.
  replace (Z.to_nat (Z.of_nat (length stem) - (-1 + 1))) with (length stem) by lia.
  replace (Z.to_nat (Z.of_nat (length stem))) with (length stem) by lia.
  change (Z.to_nat (-1 + 1)) with 0%nat. rewrite drop_0.
  rewrite take_app_length, drop_app_length.
  assert (Hlt : (-1 <? Z.of_nat (length stem))%Z = true) by (apply Z.ltb_lt; lia).
  rewrite Hlt. simpl.
  assert (Hex : existsb (fun c => negb (c =? PosixPath.DOT)) stem = true).
  { apply existsb_exists. apply Exists_exists in Hreal as (c & Hin & Hc).
    exists c. split; [apply list_elem_of_In, Hin|].
    apply negb_true_iff, N.eqb_neq, Hc. }
  rewrite Hex. reflexivity.
Qed.

Lemma splitext_no_dot name :
  Forall (fun c => c <> PosixPath.DOT) name -> PosixPath.splitext name = (name, []).
Proof.
  intros H. unfold PosixPath.splitext. rewrite (rfind_absent PosixPath.DOT _ H).
  assert (Hlt : (PosixPath.rfind PosixPath.SLASH name <? -1)%Z = false).
  { apply Z.ltb_ge. clear H. induction name as [|d name IH]; simpl; [lia|].
    destruct (0 <=? PosixPath.rfind PosixPath.SLASH name)%Z eqn:Hle; [apply Z.leb_le in Hle; lia|].
    destruct (d =? PosixPath.SLASH); lia. }
  rewrite Hlt. reflexivity.
Qed.

(** X14. The CSV of the split mode is named after the stem of the file
    name alone: for a name [stem.ext] (no slash in it, no dot in the
    extension, a stem that is not made of dots only), in any directory,
    the stem is [stem]; a name without dot is its own stem. *)
Theorem split_output_stem dir stem ext :
  Forall (fun c => c <> PosixPath.SLASH) stem ->
  Exists (fun c => c <> PosixPath.DOT) stem ->
  Forall (fun c => c <> PosixPath.DOT /\ c <> PosixPath.SLASH) ext ->
  fst (PosixPath.splitext (PosixPath.basename (stem ++ PosixPath.DOT :: ext))) = stem /\
  fst (PosixPath.splitext (PosixPath.basename (dir ++ PosixPath.SLASH :: stem ++ PosixPath.DOT :: ext))) = stem /\
  fst (PosixPath.splitext (PosixPath.basename ext)) = ext.
Proof.
  intros Hstem Hreal Hext.
  assert (Hname : Forall (fun c => c <> PosixPath.SLASH) (stem ++ PosixPath.DOT :: ext)).
  { apply Forall_app. split; [exact Hstem|]. constructor; [discriminate|].
    eapply Forall_impl; [exact Hext|]. cbv beta. tauto. }
  rewrite (basename_plain _ Hname), (basename_in_dir _ _ Hname),
          (splitext_stem _ _ Hstem Hreal Hext).
  repeat split.
  rewrite basename_plain by (eapply Forall_impl; [exact Hext|]; cbv beta; tauto).
  rewrite splitext_no_dot by (eapply Forall_impl; [exact Hext|]; cbv beta; tauto).
  reflexivity.
Qed.

(** X15. Two groups of the split mode whose file names differ in the
    extension only are written to the same path, and the table of the
    second replaces the table of the first. *)
Theorem same_stem_overwrites stem ext1 ext2 s1 g1 s2 g2 out_dir fs :
  Forall (fun c => c <> PosixPath.SLASH) stem ->
  Exists (fun c => c <> PosixPath.DOT) stem ->
  Forall (fun c => c <> PosixPath.DOT /\ c <> PosixPath.SLASH) ext1 ->
  Forall (fun c => c <> PosixPath.DOT /\ c <> PosixPath.SLASH) ext2 ->
  save_split [(Some (stem ++ PosixPath.DOT :: ext1), s1 :: g1);
              (Some (stem ++ PosixPath.DOT :: ext2), s2 :: g2)] out_dir fs =
    Some (<[PosixPath.join out_dir (stem ++ py "_result.csv")
            := header_row :: map csv_row (s2 :: g2)]> fs).
Proof.
  intros Hstem Hreal Hext1 Hext2.
  assert (Hname : forall ext, Forall (fun c => c <> PosixPath.DOT /\ c <> PosixPath.SLASH) ext ->
            fst (PosixPath.splitext (PosixPath.basename (stem ++ PosixPath.DOT :: ext))) = stem).
  { intros ext Hext. rewrite basename_plain, (splitext_stem _ _ Hstem Hreal Hext);
      [reflexivity|].
    apply Forall_app. split; [exact Hstem|]. constructor; [discriminate|].
    eapply Forall_impl; [exact Hext|]. cbv beta. tauto. }
  unfold save_split.
  rewrite write_split_table. cbn [mbind option_bind].
  rewrite write_split_table. cbn [mbind option_bind].
  rewrite (Hname _ Hext1), (Hname _ Hext2), insert_insert_eq. reflexivity.
Qed.

Lemma split_output_stem_witness :
  fst (PosixPath.splitext (PosixPath.basename (py "scan.v2.jpg"))) = py "scan.v2" /\
  fst (PosixPath.splitext (PosixPath.basename (py "in/2024/scan.v2.jpg"))) = py "scan.v2" /\
  fst (PosixPath.splitext (PosixPath.basename (py "jpg"))) = py "jpg".
Proof.
  apply (split_output_stem (py "in/2024") (py "scan.v2") (py "jpg")).
  - repeat constructor; discriminate.
  - left. discriminate.
  - repeat constructor; discriminate.
Defined.

Lemma same_stem_overwrites_witness :
  save_split
    [(Some (py "a.jpg"), [Sample.record Sample.id1 [] [] Sample.yamada (9 # 10)]);
     (Some (py "a.png"), [Sample.record Sample.id2 [] [] Sample.taro (9 # 10)])]
    (py "results") ∅ =
  Some {[ py "results/a_result.csv" :=
            [header_row; csv_row (Sample.record Sample.id2 [] [] Sample.taro (9 # 10))] ]}.
Proof.
  apply (same_stem_overwrites (py "a") (py "jpg") (py "png")).
  - repeat constructor; discriminate.
  - left. discriminate.
  - repeat constructor; discriminate.
  - repeat constructor; discriminate.
Defined.

(** *** The processing loop *)

Section ProcessingLoop.
Context `{RT : PyRuntime}.

Lemma process_files_acc self files acc :
  process_files self files acc =
  acc ++ concat (map (fun f => default [] (process_file self (fst f) (snd f))) files).
Proof.
  revert acc. induction files as [|[fpath imgs] rest IH]; intros acc; simpl.
  - rewrite app_nil_r. reflexivity.
  - destruct (process_file self fpath imgs) as [file_students|]; simpl; rewrite IH.
    + rewrite <- app_assoc. reflexivity.
    + reflexivity.
Qed.

Lemma process_file_names self fpath imgs file_students :
  process_file self fpath imgs = Some file_students ->
  Forall (fun r => file_name r = Some (PosixPath.basename fpath)) file_students.
Proof.
  unfold process_file.
  destruct (mapM _ imgs) as [per_image|] eqn:Hm; [|discriminate].
  simpl. intros [= <-]. apply mapM_Some in Hm.
  apply Forall_concat.
  induction Hm as [|words recs imgs per_image Hrun _ IH]; constructor; [|exact IH].
  apply Forall_forall. intros r Hr.
  destruct (build_records_origin _ _ _ _ _ _ _ Hrun r Hr) as [Hnil|Hmade];
    [inversion Hnil|].
  apply made_from_candidate in Hmade as (word & m & raw & _ & ->).
  unfold build_record. destruct (parse_name raw) as [[? ?] ?]. reflexivity.
Qed.

(** X16. A file contributes the records of all its images, in order, or
    nothing: it contributes nothing exactly when [extract] raises on one
    of its images, whatever the other images hold.  Every record collected
    carries the base name of its file. *)
Theorem process_files_all_or_nothing self files :
  process_files self files [] =
    concat (map (fun f => default [] (process_file self (fst f) (snd f))) files) /\
  (forall fpath imgs,
     process_file self fpath imgs = None <->
     Exists (fun words => extract self words (PosixPath.basename fpath) = None) imgs) /\
  (forall fpath imgs,
     Forall (fun words => is_Some (extract self words (PosixPath.basename fpath))) imgs ->
     process_file self fpath imgs =
       Some (concat (map (fun words =>
                            default [] (extract self words (PosixPath.basename fpath)))
                         imgs))) /\
  Forall (fun r => exists f, f ∈ files /\
                             file_name r = Some (PosixPath.basename (fst f)))
    (process_files self files []).
Proof.
  split; [apply process_files_acc|]. split; [|split].
  - intros fpath imgs. unfold process_file. rewrite <- mapM_None.
    destruct (mapM _ imgs); simpl; split; congruence.
  - intros fpath imgs Hall. unfold process_file.
    assert (Hm : mapM (fun words => extract self words (PosixPath.basename fpath)) imgs =
                 Some (map (fun words =>
                              default [] (extract self words (PosixPath.basename fpath)))
                         imgs)).
    { apply mapM_Some. induction Hall as [|words imgs [recs Hw] _ IH]; simpl;
        constructor; [rewrite Hw; reflexivity|exact IH]. }
    rewrite Hm. reflexivity.
  - rewrite process_files_acc. simpl. apply Forall_concat, Forall_forall.
    intros recs Hrecs. apply list_elem_of_fmap in Hrecs as ([fpath imgs] & -> & Hin).
    simpl. destruct (process_file self fpath imgs) as [file_students|] eqn:Hp;
      [|constructor].
    simpl. eapply Forall_impl; [exact (process_file_names _ _ _ _ Hp)|].
    intros r Hr. exists (fpath, imgs). tauto.
Qed.

End ProcessingLoop.

(** *** The split mode as a whole *)

Lemma save_split_tables grouped out_dir fs :
  Forall (fun g => is_Some (fst g) /\ snd g <> []) grouped ->
  exists fs',
    save_split grouped out_dir fs = Some fs' /\
    forall path table,
      fs' !! path = Some table ->
      fs !! path = Some table \/
      exists g, g ∈ grouped /\ table = header_row :: map csv_row (snd g).
Proof.
  intros Hall. revert fs.
  induction Hall as [|[key students] rest [[name Hkey] Hne] _ IH]; intros fs; simpl.
  - exists fs. split; [reflexivity|]. tauto.
  - simpl in Hkey, Hne. subst key.
    destruct students as [|s students]; [congruence|].
    rewrite write_split_table. cbn [mbind option_bind].
    destruct (IH (<[PosixPath.join out_dir
                      (fst (PosixPath.splitext (PosixPath.basename name))
                       ++ py "_result.csv")
                    := header_row :: map csv_row (s :: students)]> fs))
      as (fs' & -> & Htables).
    exists fs'. split; [reflexivity|].
    intros path table Hlook.
    destruct (Htables _ _ Hlook) as [Hold|(g & Hg & ->)].
    + apply lookup_insert_Some in Hold as [[_ <-]|[_ Hold]]; [right|left; exact Hold].
      exists (Some name, s :: students). split; [left|reflexivity].
    + right. exists g. split; [right; exact Hg|reflexivity].
Qed.

(** X17. On records that all carry a file name the split mode never
    raises, and every table it leaves holds the header and the records of
    exactly one file name, in their order. *)
Theorem split_mode_saves all_results out_dir fs :
  Forall (fun r => is_Some (file_name r)) all_results ->
  exists fs',
    save_split (group_by_file all_results) out_dir fs = Some fs' /\
    forall path table,
      fs' !! path = Some table ->
      fs !! path = Some table \/
      exists name,
        filed_under (Some name) all_results <> [] /\
        table = header_row :: map csv_row (filed_under (Some name) all_results).
Proof.
  intros Hnames.
  destruct (group_by_file_inv all_results) as (_ & Hgroups & _).
  assert (Hkeys : Forall (fun g => is_Some (fst g) /\ snd g <> [])
                    (group_by_file all_results)).
  { eapply Forall_impl; [exact Hgroups|]. intros [key students] [Hne Heq].
    simpl in *. split; [|exact Hne].
    destruct students as [|s students]; [congruence|].
    assert (Hs : s ∈ filed_under key all_results) by (rewrite <- Heq; left).
    unfold filed_under in Hs. apply list_elem_of_In, filter_In in Hs as [Hs Hk].
    apply bool_decide_eq_true in Hk. subst key.
    rewrite Forall_forall in Hnames. apply Hnames, list_elem_of_In, Hs. }
  destruct (save_split_tables _ out_dir fs Hkeys) as (fs' & Hsave & Htables).
  exists fs'. split; [exact Hsave|].
  intros path table Hlook.
  destruct (Htables _ _ Hlook) as [Hold|([key students] & Hg & ->)]; [left; exact Hold|].
  right. rewrite Forall_forall in Hgroups, Hkeys.
  destruct (Hgroups _ Hg) as [Hne Heq]. destruct (Hkeys _ Hg) as [[name Hname] _].
  simpl in *. subst key. exists name. rewrite <- Heq. tauto.
Qed.

Lemma split_mode_saves_witness :
  exists fs',
    save_split (group_by_file Sample.records) (py "results") ∅ = Some fs' /\
    forall path table,
      fs' !! path = Some table ->
      (∅ : gmap pystr Table) !! path = Some table \/
      exists name,
        filed_under (Some name) Sample.records <> [] /\
        table = header_row :: map csv_row (filed_under (Some name) Sample.records).
Proof.
  apply (split_mode_saves Sample.records (py "results") ∅).
  repeat constructor; eexists; reflexivity.
Defined.

Lemma extract_total_witness : is_Some (extract Sample.self Sample.page []).
Proof.
  apply (extract_total Sample.self Sample.page []).
  repeat constructor.
Defined.
